(** * Masked cross-entropy loss: [nemo.collections.nlp.modules.crossentropy_loss]

    A shallow embedding of [CrossEntropyLoss.__init__],
    [CrossEntropyLoss.forward] and the port declarations, together with
    the tensor primitives they call ([torch.flatten], comparison with a
    scalar, boolean-mask indexing, [torch.argmax], [len] and
    [torch.nn.CrossEntropyLoss]).

    Conventions.
    - A tensor is its shape and its elements in row-major order.
    - Scores, weights and numeric mask entries are rationals (every finite
      floating-point number is one); class indices are integers.
    - The logarithm and the exponential of the kernel are taken over the
      reals: rounding and overflow are not modelled, so that a loss that
      is [Fin r] here can be infinite in floating point when [r] is out of
      the format's range.  A division by zero in the [mean] reduction
      yields [NonFinite].
    - A Python exception is a value of [exn]; an operation that can raise
      returns a [result].
    - The tensor primitives follow the tensor library's documented
      behaviour; in particular the criterion reads the class axis of its
      input at position 1 and skips targets equal to [ignore_index].
    - [input_ports] and [output_ports] are association lists in the order
      of the ordered dictionaries they return.
    - The [typecheck] decorator and the empty [save_to] / [restore_from]
      are outside the embedding. *)

From Stdlib Require Import List ZArith QArith Qreals Reals Lra Lia Bool.
From Stdlib Require Strings.String.
Import ListNotations.
Import String.StringSyntax.
Delimit Scope string_scope with string.

(** ** Exceptions *)

Module Py.

Inductive exn : Type :=
| IndexError      (* raised by tensor indexing and dimension wrapping *)
| RuntimeError    (* raised by a tensor operation on a bad argument *)
| TypeError       (* raised when a buffer is not a tensor *)
| KernelError.    (* any error raised inside the cross-entropy kernel *)

Inductive result (A : Type) : Type :=
| Ok (a : A)
| Raise (e : exn).
Arguments Ok {A} a.
Arguments Raise {A} e.

Definition rbind {A B : Type} (r : result A) (k : A -> result B) : result B :=
  match r with
  | Ok a => k a
  | Raise e => Raise e
  end.

(** Truthiness of a list: [if weight:] *)
Definition truthy {A : Type} (l : list A) : bool :=
  match l with
  | [] => false
  | _ :: _ => true
  end.

End Py.
Export Py.

(** ** The tensor library *)

Module Torch.

Record tensor (A : Type) : Type := mkTensor {
  shape : list nat;
  data : list A
}.
Arguments mkTensor {A} shape data.
Arguments shape {A} t.
Arguments data {A} t.

Definition prod_list (l : list nat) : nat := fold_right Nat.mul 1%nat l.

Definition ndim {A : Type} (t : tensor A) : nat := length (shape t).
Definition numel {A : Type} (t : tensor A) : nat := prod_list (shape t).

(** The elements are exactly those the shape announces. *)
Definition wf {A : Type} (t : tensor A) : Prop := length (data t) = numel t.

(** [maybe_wrap_dim]: a dimension index in [-n, n-1] is wrapped to
    [0, n-1], where a tensor of rank 0 counts as rank 1. *)
Definition wrap_dim (d : Z) (rank : nat) : result nat :=
  let n := Z.of_nat (Nat.max rank 1) in
  if ((- n <=? d) && (d <? n))%Z
  then Ok (Z.to_nat (if (d <? 0)%Z then d + n else d)%Z)
  else Raise IndexError.

(** [torch.flatten(t, start_dim, end_dim)]: the axes start..end become one
    axis; the elements keep their row-major order. *)
Definition flatten {A : Type} (t : tensor A) (start_dim end_dim : Z)
  : result (tensor A) :=
  rbind (wrap_dim start_dim (ndim t)) (fun s =>
  rbind (wrap_dim end_dim (ndim t)) (fun e =>
    if (e <? s)%nat then Raise RuntimeError
    else
      match shape t with
      | [] => Ok (mkTensor [1%nat] (data t))
      | sh =>
          Ok (mkTensor
                (firstn s sh
                 ++ [prod_list (firstn (S e - s) (skipn s sh))]
                 ++ skipn (S e) sh)
                (data t))
      end)).

(** [len(t)]: the size of the first axis (used on rank-1 tensors). *)
Definition len {A : Type} (t : tensor A) : nat := hd 0%nat (shape t).

(** [t > 0.5] on a numeric tensor. *)
Definition gt_half (v : Q) : bool :=
  match Qlt_le_dec (1 # 2) v with
  | left _ => true
  | right _ => false
  end.

Definition gt_scalar_half (t : tensor Q) : tensor bool :=
  mkTensor (shape t) (map gt_half (data t)).

(** [n] consecutive chunks of [c] elements each. *)
Fixpoint chunks {A : Type} (n c : nat) (l : list A) : list (list A) :=
  match n with
  | O => []
  | S n' => firstn c l :: chunks n' c (skipn c l)
  end.

(** [mask.nonzero()]: the positions of the true entries, ascending. *)
Fixpoint nonzero_from (i : nat) (m : list bool) : list nat :=
  match m with
  | [] => []
  | b :: m' => if b then i :: nonzero_from (S i) m' else nonzero_from (S i) m'
  end.

Definition nonzero (m : list bool) : list nat := nonzero_from 0 m.

(** [t[mask]] for a rank-1 boolean mask: the mask must be as long as the
    first axis of [t]; the selected slices along axis 0 are gathered in
    the order of [mask.nonzero()]. *)
Definition index_bool {A : Type} (t : tensor A) (mask : tensor bool)
  : result (tensor A) :=
  match shape t with
  | [] => Raise IndexError
  | n :: rest =>
      if (len mask =? n)%nat then
        let rows := chunks n (prod_list rest) (data t) in
        let idx := nonzero (data mask) in
        Ok (mkTensor (length idx :: rest)
                     (concat (map (fun i => nth i rows []) idx)))
      else Raise IndexError
  end.

(** Index of the first maximal entry of a row. *)
Fixpoint argmax_from (best : Q) (besti i : nat) (l : list Q) : nat :=
  match l with
  | [] => besti
  | x :: l' =>
      match Qlt_le_dec best x with
      | left _ => argmax_from x i (S i) l'
      | right _ => argmax_from best besti (S i) l'
      end
  end.

Definition argmax_row (l : list Q) : nat :=
  match l with
  | [] => 0%nat
  | x :: l' => argmax_from x 0 1 l'
  end.

(** [torch.argmax(t, dim=-1)]: the last axis is reduced; a last axis of
    size zero is an error. *)
Definition argmax_last (t : tensor Q) : result (tensor Z) :=
  match shape t with
  | [] => Ok (mkTensor [] [0%Z])
  | sh =>
      let c := last sh 0%nat in
      if (c =? 0)%nat then Raise IndexError
      else
        let lead := removelast sh in
        Ok (mkTensor lead
              (map (fun r => Z.of_nat (argmax_row r))
                   (chunks (prod_list lead) c (data t))))
  end.

(** *** [torch.nn.CrossEntropyLoss] *)

Inductive reduction : Type := Mean | Sum | NoReduction.

(** What [__init__] hands over as [weight]: [None], a tensor, or a Python
    list that was never converted. *)
Inductive weight_arg : Type :=
| WNone
| WTensor (w : list Q)
| WList (w : list Q).

Record CrossEntropyLoss : Type := mkCriterion {
  weight : option (list Q);
  reduce : reduction
}.

(** The constructor registers [weight] as a buffer, which must be a tensor
    or [None]. *)
Definition CrossEntropyLoss_init (w : weight_arg) (r : reduction)
  : result CrossEntropyLoss :=
  match w with
  | WNone => Ok (mkCriterion None r)
  | WTensor l => Ok (mkCriterion (Some l) r)
  | WList _ => Raise TypeError
  end.

Inductive fval : Type :=
| Fin (r : R)
| NonFinite.

Definition ignore_index : Z := (-100)%Z.

Definition sum_exp (xs : list Q) : R :=
  fold_right (fun x acc => (exp (Q2R x) + acc)%R) 0%R xs.

(** [- log_softmax(xs)[t]] *)
Definition nll (xs : list Q) (t : nat) : R :=
  (ln (sum_exp xs) - Q2R (nth t xs 0%Q))%R.

Definition class_weight (w : option (list Q)) (t : nat) : Q :=
  match w with
  | None => 1%Q
  | Some l => nth t l 0%Q
  end.

(** The scores of position [j] of one batch entry, whose [c * d] elements
    are laid out class-major. *)
Definition class_vector (c d : nat) (block : list Q) (j : nat) : list Q :=
  map (fun k => nth (k * d + j) block 0%Q) (seq 0 c).

(** One target: [None] when the index is out of range, otherwise the
    weight counted by the mean and the weighted loss; an ignored target
    counts zero for both. *)
Definition point_loss (w : option (list Q)) (c : nat) (xs : list Q) (t : Z)
  : option (Q * R) :=
  if (t =? ignore_index)%Z then Some (0%Q, 0%R)
  else if ((0 <=? t) && (t <? Z.of_nat c))%Z then
    let k := Z.to_nat t in
    Some (class_weight w k, (Q2R (class_weight w k) * nll xs k)%R)
  else None.

Fixpoint sequence {A : Type} (l : list (option A)) : option (list A) :=
  match l with
  | [] => Some []
  | None :: _ => None
  | Some a :: l' =>
      match sequence l' with
      | Some r => Some (a :: r)
      | None => None
      end
  end.

(** The losses of one batch entry, position by position. *)
Definition block_losses (w : option (list Q)) (c d : nat)
           (block : list Q) (targets : list Z) : list (option (Q * R)) :=
  map (fun jt => point_loss w c (class_vector c d block (fst jt)) (snd jt))
      (combine (seq 0 d) targets).

Definition all_losses (w : option (list Q)) (n c d : nat)
           (input : list Q) (target : list Z) : option (list (Q * R)) :=
  sequence
    (concat (map (fun bt => block_losses w c d (fst bt) (snd bt))
                 (combine (chunks n (c * d) input) (chunks n d target)))).

Definition Qsum (l : list Q) : Q := fold_right Qplus 0%Q l.
Definition Rsum (l : list R) : R := fold_right Rplus 0%R l.

Definition scalar (v : fval) : tensor fval := mkTensor [] [v].

Fixpoint shape_eqb (a b : list nat) : bool :=
  match a, b with
  | [], [] => true
  | x :: a', y :: b' => (x =? y)%nat && shape_eqb a' b'
  | _, _ => false
  end.

Definition reduce_losses (r : reduction) (out_shape : list nat)
           (l : list (Q * R)) : tensor fval :=
  match r with
  | NoReduction => mkTensor out_shape (map (fun p => Fin (snd p)) l)
  | Sum => scalar (Fin (Rsum (map snd l)))
  | Mean =>
      let den := Qsum (map fst l) in
      if Qeq_bool den 0 then scalar NonFinite
      else scalar (Fin (Rsum (map snd l) / Q2R den))
  end.

(** Calling the criterion: [input] has shape [N, C, d1, ...] and [target]
    shape [N, d1, ...]; a weight vector must have one entry per class. *)
Definition CrossEntropyLoss_call (crit : CrossEntropyLoss)
           (input : tensor Q) (target : tensor Z) : result (tensor fval) :=
  match shape input with
  | n :: c :: ds =>
      if negb (shape_eqb (shape target) (n :: ds)) then Raise KernelError
      else if negb (match weight crit with
                    | None => true
                    | Some l => (length l =? c)%nat
                    end) then Raise KernelError
      else
        match all_losses (weight crit) n c (prod_list ds)
                         (data input) (data target) with
        | None => Raise KernelError
        | Some l => Ok (reduce_losses (reduce crit) (n :: ds) l)
        end
  | _ => Raise KernelError
  end.

End Torch.

(** ** The module *)

Module NeMo.
Import Torch.

(** The loss mask is either boolean-typed or numeric (float or int). *)
Inductive mask_tensor : Type :=
| BoolMask (m : tensor bool)
| NumMask (m : tensor Q).

Section Module_.

(** The criterion object held by the module and what calling it does;
    [forward] only ever calls it. *)
Context {Crit Loss : Type}.
Variable call : Crit -> tensor Q -> tensor Z -> result Loss.

(** The attributes [__init__] sets on [self]. *)
Record CrossEntropyLoss : Type := mkModule {
  _criterion : Crit;
  _logits_dim : Z
}.

(** A method runs on [self], may raise, and hands [self] back. *)
Definition method (A : Type) : Type :=
  CrossEntropyLoss -> result A * CrossEntropyLoss.

Definition ret {A : Type} (a : A) : method A := fun self => (Ok a, self).

Definition bind {A B : Type} (m : method A) (k : A -> method B) : method B :=
  fun self =>
    match m self with
    | (Ok a, self') => k a self'
    | (Raise e, self') => (Raise e, self')
    end.

Definition lift {A : Type} (r : result A) : method A := fun self => (r, self).

Definition getattr {A : Type} (f : CrossEntropyLoss -> A) : method A :=
  fun self => (Ok (f self), self).

Notation "x <- m ;; k" := (bind m (fun x => k))
  (at level 61, m at next level, right associativity).

(** [self._criterion(input, target)] *)
Definition criterion (input : tensor Q) (target : tensor Z) : method Loss :=
  crit <- getattr _criterion ;;
  lift (call crit input target).

Definition forward (logits : tensor Q) (labels : tensor Z)
           (loss_mask : option mask_tensor) : method Loss :=
  logits_flatten <- lift (flatten logits 0 (-2)) ;;
  labels_flatten <- lift (flatten labels 0 (-1)) ;;
  selected <-
    match loss_mask with
    | Some loss_mask =>
        let loss_mask :=
          match loss_mask with
          | NumMask m => gt_scalar_half m   (* dtype is not torch.bool *)
          | BoolMask m => m
          end in
        loss_mask_flatten <- lift (flatten loss_mask 0 (-1)) ;;
        logits_flatten <- lift (index_bool logits_flatten loss_mask_flatten) ;;
        labels_flatten <- lift (index_bool labels_flatten loss_mask_flatten) ;;
        ret (logits_flatten, labels_flatten)
    | None => ret (logits_flatten, labels_flatten)
    end ;;
  let logits_flatten := fst selected in
  let labels_flatten := snd selected in
  if (len labels_flatten =? 0)%nat then
    predictions <- lift (argmax_last logits) ;;
    criterion logits predictions
  else
    criterion logits_flatten labels_flatten.

(** The value a call returns (or the exception it raises) and the
    module it leaves behind. *)
Definition returned {A : Type} (m : method A) (self : CrossEntropyLoss)
  : result A := fst (m self).
Definition left_behind {A : Type} (m : method A) (self : CrossEntropyLoss)
  : CrossEntropyLoss := snd (m self).

End Module_.

Arguments CrossEntropyLoss Crit : clear implicits.
Arguments mkModule {Crit} _ _.

(** [CrossEntropyLoss.__init__]: a truthy weight list becomes a float
    tensor, anything else is passed on as it is. *)
Definition __init__ (logits_ndim : Z) (weight : option (list Q))
           (reduction : Torch.reduction)
  : result (CrossEntropyLoss Torch.CrossEntropyLoss) :=
  let weight :=
    match weight with
    | None => WNone
    | Some w => if truthy w then WTensor w else WList w
    end in
  rbind (CrossEntropyLoss_init weight reduction) (fun crit =>
  Ok (mkModule crit logits_ndim)).

(** [forward] of a module whose criterion is the library's. *)
Definition torch_forward := forward CrossEntropyLoss_call.

(** A criterion that hands back the arguments it is called with: running
    [forward] over it shows what the criterion is invoked on. *)
Definition recording_call (_ : unit) (input : tensor Q) (target : tensor Z)
  : result (tensor Q * tensor Z) := Ok (input, target).

(** *** Vocabulary of the specification *)

(** The mask as booleans: a numeric entry counts as true when it is
    strictly greater than one half. *)
Definition mask_shape (m : mask_tensor) : list nat :=
  match m with
  | BoolMask b => shape b
  | NumMask q => shape q
  end.

Definition mask_bits (m : mask_tensor) : list bool :=
  match m with
  | BoolMask b => data b
  | NumMask q => map (fun v => if Qlt_le_dec (1 # 2) v then true else false) (data q)
  end.

Definition count_true (bits : list bool) : nat :=
  length (filter (fun b : bool => b) bits).

(** The entries of [xs] at which the mask is true, in their order. *)
Definition selected {A : Type} (xs : list A) (bits : list bool) : list A :=
  map fst (filter (fun p => snd p) (combine xs bits)).

(** The rows of the logits: one score vector per labelled position. *)
Definition n_rows (logits : tensor Q) : nat :=
  prod_list (removelast (shape logits)).
Definition n_classes (logits : tensor Q) : nat := last (shape logits) 0%nat.
Definition rows (logits : tensor Q) : list (list Q) :=
  chunks (n_rows logits) (n_classes logits) (data logits).

(** Logits and labels restricted to the positions the mask selects. *)
Definition select_logits (logits : tensor Q) (bits : list bool) : tensor Q :=
  mkTensor [count_true bits; n_classes logits]
           (concat (selected (rows logits) bits)).
Definition select_labels (labels : tensor Z) (bits : list bool) : tensor Z :=
  mkTensor [count_true bits] (selected (data labels) bits).

(** The arguments [forward] calls the criterion with, or the exception
    raised before the call. *)
Definition kernel_args (logits : tensor Q) (labels : tensor Z)
           (loss_mask : option mask_tensor) : result (tensor Q * tensor Z) :=
  rbind (flatten logits 0 (-2)) (fun lf =>
  rbind (flatten labels 0 (-1)) (fun lb =>
  rbind (match loss_mask with
         | None => Ok (lf, lb)
         | Some m =>
             rbind (flatten (mkTensor (mask_shape m) (mask_bits m)) 0 (-1))
               (fun mf =>
             rbind (index_bool lf mf) (fun lf' =>
             rbind (index_bool lb mf) (fun lb' => Ok (lf', lb'))))
         end) (fun sel =>
  if (len (snd sel) =? 0)%nat
  then rbind (argmax_last logits) (fun p => Ok (logits, p))
  else Ok sel))).

(** A label the kernel accepts for [c] classes. *)
Definition valid_label (c : nat) (t : Z) : Prop :=
  t = ignore_index \/ (0 <= t < Z.of_nat c)%Z.

(** The weight vector, if any, has one entry per class. *)
Definition weight_fits (crit : Torch.CrossEntropyLoss) (c : nat) : Prop :=
  match weight crit with
  | None => True
  | Some w => length w = c
  end.

(** The counted weight and the weighted loss of every row against its own
    arg-max. *)
Definition argmax_losses (w : option (list Q)) (logits : tensor Q)
  : list (Q * R) :=
  map (fun r => (class_weight w (argmax_row r),
                 (Q2R (class_weight w (argmax_row r)) * nll r (argmax_row r))%R))
      (rows logits).

(** The score [torch.argmax] picks in a row: its largest. *)
Definition row_max (r : list Q) : Q := nth (argmax_row r) r 0%Q.

(** [ln (sum_c exp x_c) - max_c x_c], summed over the rows. *)
Definition argmax_loss_sum (logits : tensor Q) : R :=
  Rsum (map (fun r => (ln (sum_exp r) - Q2R (row_max r))%R) (rows logits)).

(** Nothing is selected: no mask and no labels, or a mask of the right size
    without a true entry. *)
Definition empty_selection (logits : tensor Q) (labels : tensor Z)
           (loss_mask : option mask_tensor) : Prop :=
  match loss_mask with
  | None => numel labels = 0%nat
  | Some m =>
      prod_list (mask_shape m) = n_rows logits
      /\ prod_list (mask_shape m) = numel labels
      /\ forall b, In b (mask_bits m) -> b = false
  end.

(** *** Ports *)

Inductive element_type : Type :=
| VoidType | LogitsType | LabelsType | MaskType | LossType.

(** [NeuralType(axes, elements_type, optional)], with the constructor's
    defaults [axes=None], [elements_type=VoidType()], [optional=False]. *)
Record NeuralType : Type := mkNeuralType {
  axes : option (list String.string);
  elements_type : element_type;
  optional : bool
}.

(** [['B'] + ['ANY'] * k]: a list repeated a non-positive number of times
    is empty. *)
Definition batch_and_any (k : Z) : list String.string :=
  "B"%string :: repeat "ANY"%string (Z.to_nat k).

(** [input_ports]: the ordered dictionary of the declared inputs. *)
Definition input_ports {Crit : Type} (self : CrossEntropyLoss Crit)
  : list (String.string * NeuralType) :=
  [ ("logits"%string,
     mkNeuralType (Some (batch_and_any (_logits_dim self - 1))) LogitsType false);
    ("labels"%string,
     mkNeuralType (Some (batch_and_any (_logits_dim self - 2))) LabelsType false);
    ("loss_mask"%string,
     mkNeuralType (Some (batch_and_any (_logits_dim self - 2))) MaskType true) ].

(** [output_ports] *)
Definition output_ports {Crit : Type} (self : CrossEntropyLoss Crit)
  : list (String.string * NeuralType) :=
  [ ("loss"%string, mkNeuralType None LossType false) ].

(** [ports[name]] *)
Fixpoint lookup_port (name : String.string)
         (ports : list (String.string * NeuralType)) : option NeuralType :=
  match ports with
  | [] => None
  | (k, v) :: rest => if String.eqb k name then Some v else lookup_port name rest
  end.

(** The number of axes a port declares. *)
Definition port_rank (name : String.string)
           (ports : list (String.string * NeuralType)) : option nat :=
  match lookup_port name ports with
  | Some t =>
      match axes t with
      | Some l => Some (length l)
      | None => None
      end
  | None => None
  end.



(** A mask that selects every position. *)
Definition all_selected (bits : list bool) : Prop :=
  forall b, In b bits -> b = true.

(** *** Sample modules and inputs *)

(** Two classes: a module with weights [1, 2] and one without weights. *)
Definition weighted_module (r : reduction)
  : CrossEntropyLoss Torch.CrossEntropyLoss :=
  mkModule (mkCriterion (Some [1; 2]%Q) r) 2.
Definition plain_module (r : reduction)
  : CrossEntropyLoss Torch.CrossEntropyLoss :=
  mkModule (mkCriterion None r) 2.

(** One example with scores [a, b] and true class [t]. *)
Definition example_logits (a b : Q) : tensor Q := mkTensor [1; 2]%nat [a; b].
Definition example_label (t : Z) : tensor Z := mkTensor [1%nat] [t].

(** Three examples over three classes, with masks. *)
Definition p2_logits : tensor Q :=
  mkTensor [3; 3]%nat [2; 0; 0; 0; 2; 0; 0; 0; 2]%Q.
Definition p2_labels : tensor Z := mkTensor [3%nat] [0; 1; 2]%Z.
Definition p2_mask : tensor bool := mkTensor [3%nat] [true; true; false].
Definition p4_mask : tensor Q := mkTensor [3%nat] [9 # 10; 4 # 10; 6 # 10]%Q.
Definition p4_bool : tensor bool := mkTensor [3%nat] [true; false; true].
Definition no_position : tensor bool := mkTensor [3%nat] [false; false; false].

End NeMo.

Import Torch NeMo.

(** Evaluate a call of [forward] on concrete tensors, leaving the real
    arithmetic untouched. *)
Ltac run_forward :=
  match goal with
  | |- ?lhs = _ =>
      let v := eval cbv -[exp ln Rplus Rmult Rminus Rdiv Rinv Ropp Q2R IZR]
               in lhs in
      change lhs with v
  end.

Ltac run_forward_in H :=
  match type of H with
  | ?lhs = _ =>
      let v := eval cbv -[exp ln Rplus Rmult Rminus Rdiv Rinv Ropp Q2R IZR]
               in lhs in
      change lhs with v in H
  end.

(** * Properties *)

(** ** Lists *)

Lemma skipn_pred_length {A : Type} (d : A) (l : list A) :
  l <> [] -> skipn (pred (length l)) l = [last l d].
Proof.
  induction l as [|x l IH]; [congruence|intros _].
  destruct l as [|y l]; [reflexivity|].
  change (skipn (pred (length (y :: l))) (y :: l) = [last (y :: l) d]).
  apply IH; discriminate.
Qed.

Lemma firstn_pred_length {A : Type} (l : list A) :
  firstn (pred (length l)) l = removelast l.
Proof.
  induction l as [|x l IH]; [reflexivity|].
  destruct l as [|y l]; [reflexivity|].
  change (x :: firstn (pred (length (y :: l))) (y :: l) = x :: removelast (y :: l)).
  now rewrite IH.
Qed.

Lemma chunks_length {A : Type} (n c : nat) (l : list A) :
  length (chunks n c l) = n.
Proof.
  revert l; induction n as [|n IH]; intros l; simpl; [reflexivity|].
  now rewrite IH.
Qed.

Lemma chunks_one {A : Type} (l : list A) :
  chunks (length l) 1 l = map (fun x => [x]) l.
Proof.
  induction l as [|x l IH]; simpl; [reflexivity|].
  now rewrite IH.
Qed.

Lemma concat_singletons {A : Type} (l : list A) :
  concat (map (fun x => [x]) l) = l.
Proof.
  induction l as [|x l IH]; simpl; [reflexivity|now rewrite IH].
Qed.

Lemma nonzero_from_length (i : nat) (m : list bool) :
  length (nonzero_from i m) = count_true m.
Proof.
  revert i; induction m as [|b m IH]; intros i; [reflexivity|].
  unfold count_true in *; simpl.
  destruct b; simpl; now rewrite IH.
Qed.

Lemma selected_map {A B : Type} (f : A -> B) (xs : list A) (m : list bool) :
  selected (map f xs) m = map f (selected xs m).
Proof.
  revert m; induction xs as [|x xs IH]; intros m; [reflexivity|].
  destruct m as [|b m]; [reflexivity|].
  unfold selected in *; simpl.
  destruct b; simpl; now rewrite IH.
Qed.

Lemma selected_length {A : Type} (xs : list A) (m : list bool) :
  length xs = length m -> length (selected xs m) = count_true m.
Proof.
  revert m; induction xs as [|x xs IH]; intros [|b m] H; try discriminate;
    [reflexivity|].
  injection H as H.
  unfold selected, count_true in *; simpl.
  destruct b; simpl; now rewrite IH.
Qed.

(** Gathering at the positions of [nonzero] is filtering by the mask. *)
Lemma gather_nonzero_from {A : Type} (d : A) (pre xs : list A) (m : list bool) :
  length xs = length m ->
  map (fun i => nth i (pre ++ xs) d) (nonzero_from (length pre) m)
  = selected xs m.
Proof.
  revert pre xs; induction m as [|b m IH]; intros pre xs H.
  - destruct xs; [reflexivity|discriminate].
  - destruct xs as [|x xs]; [discriminate|].
    injection H as H.
    assert (E : forall l, map (fun i => nth i (pre ++ x :: xs) d) l
                          = map (fun i => nth i ((pre ++ [x]) ++ xs) d) l).
    { intros l; apply map_ext; intros i; now rewrite <- app_assoc. }
    assert (L : S (length pre) = length (pre ++ [x])).
    { rewrite length_app; simpl; lia. }
    unfold selected; simpl.
    destruct b; simpl.
    + rewrite nth_middle. f_equal.
      rewrite E, L. now apply IH.
    + rewrite E, L. now apply IH.
Qed.

Lemma gather_nonzero {A : Type} (d : A) (xs : list A) (m : list bool) :
  length xs = length m ->
  map (fun i => nth i xs d) (nonzero m) = selected xs m.
Proof.
  intros H. exact (gather_nonzero_from d [] xs m H).
Qed.

Lemma nonzero_from_all_false (i : nat) (m : list bool) :
  count_true m = 0%nat -> nonzero_from i m = [].
Proof.
  revert i; induction m as [|b m IH]; intros i H; [reflexivity|].
  unfold count_true in *; simpl in *.
  destruct b; [discriminate|]. now apply IH.
Qed.

(** ** Flattening *)

Lemma flatten_all {A : Type} (t : tensor A) :
  flatten t 0 (-1) = Ok (mkTensor [numel t] (data t)).
Proof.
  unfold flatten, numel, ndim, wrap_dim.
  destruct (shape t) as [|a sh] eqn:E.
  - reflexivity.
  - set (n := length (a :: sh)).
    assert (Hn : (1 <= n)%nat) by (subst n; simpl; lia).
    replace (Nat.max n 1) with n by lia.
    assert (H1 : ((- Z.of_nat n <=? 0) && (0 <? Z.of_nat n))%Z = true).
    { apply andb_true_intro; split; [apply Z.leb_le|apply Z.ltb_lt]; lia. }
    assert (H2 : ((- Z.of_nat n <=? -1) && (-1 <? Z.of_nat n))%Z = true).
    { apply andb_true_intro; split; [apply Z.leb_le|apply Z.ltb_lt]; lia. }
    rewrite H1, H2. cbn [rbind].
    replace (0 <? 0)%Z with false by reflexivity.
    replace (-1 <? 0)%Z with true by reflexivity.
    replace (Z.to_nat (-1 + Z.of_nat n)) with (pred n) by lia.
    replace (Z.to_nat 0) with 0%nat by reflexivity.
    replace (pred n <? 0)%nat with false by reflexivity.
    replace (S (pred n) - 0)%nat with n by lia.
    replace (S (pred n)) with n by lia.
    subst n. rewrite firstn_O, skipn_all.
    change (skipn 0 (a :: sh)) with (a :: sh).
    now rewrite firstn_all.
Qed.

Lemma flatten_rows (t : tensor Q) :
  (2 <= ndim t)%nat ->
  flatten t 0 (-2) = Ok (mkTensor [n_rows t; n_classes t] (data t)).
Proof.
  unfold flatten, n_rows, n_classes, ndim, wrap_dim. intros Hr.
  destruct (shape t) as [|a sh] eqn:E; [simpl in Hr; lia|].
  set (n := length (a :: sh)) in *.
  replace (Nat.max n 1) with n by lia.
  assert (H1 : ((- Z.of_nat n <=? 0) && (0 <? Z.of_nat n))%Z = true).
  { apply andb_true_intro; split; [apply Z.leb_le|apply Z.ltb_lt]; lia. }
  assert (H2 : ((- Z.of_nat n <=? -2) && (-2 <? Z.of_nat n))%Z = true).
  { apply andb_true_intro; split; [apply Z.leb_le|apply Z.ltb_lt]; lia. }
  rewrite H1, H2. cbn [rbind].
  replace (0 <? 0)%Z with false by reflexivity.
  replace (-2 <? 0)%Z with true by reflexivity.
  replace (Z.to_nat 0) with 0%nat by reflexivity.
  set (e := Z.to_nat (-2 + Z.of_nat n)).
  assert (He : S e = pred n) by lia.
  replace (e <? 0)%nat with false by reflexivity.
  replace (S e - 0)%nat with (pred n) by lia.
  rewrite He. subst n.
  rewrite firstn_O. change (skipn 0 (a :: sh)) with (a :: sh).
  rewrite firstn_pred_length.
  rewrite (skipn_pred_length 0%nat) by discriminate.
  reflexivity.
Qed.

(** ** What [forward] calls the criterion with *)

Section Forward_facts.

Context {Crit Loss : Type}.
Variable call : Crit -> tensor Q -> tensor Z -> result Loss.

Lemma forward_kernel_args (logits : tensor Q) (labels : tensor Z)
      (loss_mask : option mask_tensor) (self : CrossEntropyLoss Crit) :
  forward call logits labels loss_mask self
  = (rbind (kernel_args logits labels loss_mask)
           (fun xt => call (_criterion self) (fst xt) (snd xt)), self).
Proof.
  unfold forward, kernel_args, bind, lift, ret, criterion, getattr.
  destruct (flatten logits 0 (-2)) as [lf|e]; [|reflexivity].
  destruct (flatten labels 0 (-1)) as [lb|e]; [|reflexivity].
  cbn [rbind].
  destruct loss_mask as [[b|q]|].
  - change (flatten {| shape := mask_shape (BoolMask b);
                       data := mask_bits (BoolMask b) |} 0 (-1))
      with (flatten b 0 (-1)).
    destruct (flatten b 0 (-1)) as [mf|e]; [|reflexivity].
    cbn [rbind].
    destruct (index_bool lf mf) as [lf'|e]; [|reflexivity].
    destruct (index_bool lb mf) as [lb'|e]; [|reflexivity].
    cbn [rbind fst snd].
    destruct (len lb' =? 0)%nat; [|reflexivity].
    destruct (argmax_last logits) as [p|e]; reflexivity.
  - change (flatten {| shape := mask_shape (NumMask q);
                       data := mask_bits (NumMask q) |} 0 (-1))
      with (flatten (gt_scalar_half q) 0 (-1)).
    destruct (flatten (gt_scalar_half q) 0 (-1)) as [mf|e]; [|reflexivity].
    cbn [rbind].
    destruct (index_bool lf mf) as [lf'|e]; [|reflexivity].
    destruct (index_bool lb mf) as [lb'|e]; [|reflexivity].
    cbn [rbind fst snd].
    destruct (len lb' =? 0)%nat; [|reflexivity].
    destruct (argmax_last logits) as [p|e]; reflexivity.
  - cbn [rbind fst snd].
    destruct (len lb =? 0)%nat; [|reflexivity].
    destruct (argmax_last logits) as [p|e]; reflexivity.
Qed.

End Forward_facts.

Lemma prod_list_single (n : nat) : prod_list [n] = n.
Proof. unfold prod_list; simpl; lia. Qed.

(** Without a mask. *)
Lemma kernel_args_no_mask (logits : tensor Q) (labels : tensor Z) :
  (2 <= ndim logits)%nat ->
  kernel_args logits labels None
  = if (numel labels =? 0)%nat
    then rbind (argmax_last logits) (fun p => Ok (logits, p))
    else Ok (mkTensor [n_rows logits; n_classes logits] (data logits),
             mkTensor [numel labels] (data labels)).
Proof.
  intros Hr. unfold kernel_args.
  rewrite (flatten_rows logits Hr), flatten_all. reflexivity.
Qed.

(** With a mask whose size fits the rows and the labels. *)
Lemma kernel_args_mask (logits : tensor Q) (labels : tensor Z) (m : mask_tensor) :
  (2 <= ndim logits)%nat ->
  prod_list (mask_shape m) = n_rows logits ->
  prod_list (mask_shape m) = numel labels ->
  kernel_args logits labels (Some m)
  = if (count_true (mask_bits m) =? 0)%nat
    then rbind (argmax_last logits) (fun p => Ok (logits, p))
    else Ok (mkTensor [count_true (mask_bits m); n_classes logits]
               (concat (map (fun i => nth i (rows logits) [])
                            (nonzero (mask_bits m)))),
             mkTensor [count_true (mask_bits m)]
               (concat (map (fun i => nth i (chunks (numel labels) 1 (data labels)) [])
                            (nonzero (mask_bits m))))).
Proof.
  intros Hr Hm Hl. unfold kernel_args.
  rewrite (flatten_rows logits Hr), !flatten_all. cbn [rbind].
  unfold index_bool, len, numel. cbn [shape data hd].
  assert (E1 : (prod_list (mask_shape m) =? n_rows logits)%nat = true)
    by (apply Nat.eqb_eq; exact Hm).
  assert (E2 : (prod_list (mask_shape m) =? prod_list (shape labels))%nat = true)
    by (apply Nat.eqb_eq; exact Hl).
  rewrite E1. cbn [rbind]. rewrite E2.
  cbn [rbind snd shape hd].
  unfold nonzero. rewrite nonzero_from_length.
  rewrite prod_list_single. unfold rows, numel. reflexivity.
Qed.

Lemma all_false_count (bits : list bool) :
  (forall b, In b bits -> b = false) -> count_true bits = 0%nat.
Proof.
  induction bits as [|b bits IH]; intros H; [reflexivity|].
  unfold count_true in *; simpl.
  rewrite (H b (or_introl eq_refl)). apply IH.
  intros b' Hb'. apply H. now right.
Qed.

Lemma gt_half_spec (v : Q) : gt_half v = true <-> (1 # 2 < v)%Q.
Proof.
  unfold gt_half. destruct (Qlt_le_dec (1 # 2) v) as [H|H]; split; intros H'.
  - exact H.
  - reflexivity.
  - discriminate.
  - exfalso. exact (Qlt_not_le _ _ H' H).
Qed.

Lemma mask_bits_num (q : tensor Q) :
  mask_bits (NumMask q) = map gt_half (data q).
Proof. reflexivity. Qed.

Section Structural.

Context {Crit Loss : Type}.
Variable call : Crit -> tensor Q -> tensor Z -> result Loss.
Variable self : CrossEntropyLoss Crit.

(** C3.  A boolean mask with at least one true entry: the loss is the loss
    of an unmasked call on the rows and labels the mask selects, kept in
    their order. *)
Theorem masked_forward_is_forward_on_selection
        (logits : tensor Q) (labels : tensor Z) (m : tensor bool) :
  (2 <= ndim logits)%nat ->
  numel m = n_rows logits ->
  numel m = numel labels ->
  wf m -> wf labels ->
  (0 < count_true (data m))%nat ->
  forward call logits labels (Some (BoolMask m)) self
  = forward call (select_logits logits (data m))
            (select_labels labels (data m)) None self.
Proof.
  intros Hr Hm Hl Wm Wl Hk.
  rewrite !forward_kernel_args. f_equal. f_equal.
  rewrite (kernel_args_mask logits labels (BoolMask m) Hr Hm Hl).
  rewrite kernel_args_no_mask by (unfold ndim; simpl; lia).
  cbn [mask_bits].
  assert (K : (count_true (data m) =? 0)%nat = false)
    by (apply Nat.eqb_neq; lia).
  assert (N1 : n_rows (select_logits logits (data m)) = count_true (data m))
    by (unfold n_rows; cbn [select_logits shape removelast];
        apply prod_list_single).
  assert (N2 : n_classes (select_logits logits (data m)) = n_classes logits)
    by reflexivity.
  assert (N3 : numel (select_labels labels (data m)) = count_true (data m))
    by (unfold numel; cbn [select_labels shape]; apply prod_list_single).
  rewrite N1, N2, N3, K.
  cbn [select_logits select_labels data].
  rewrite (gather_nonzero [] (rows logits) (data m)).
  2:{ unfold rows. rewrite chunks_length, <- Hm. symmetry. exact Wm. }
  unfold wf in Wl. rewrite <- Wl, chunks_one.
  rewrite gather_nonzero.
  2:{ rewrite length_map, Wl, <- Hl. symmetry. exact Wm. }
  rewrite selected_map, concat_singletons. reflexivity.
Qed.

(** C5.  A numeric mask acts as the boolean mask that is true exactly at
    the entries strictly greater than one half. *)
Theorem numeric_mask_is_thresholded
        (logits : tensor Q) (labels : tensor Z)
        (q : tensor Q) (b : tensor bool) :
  shape b = shape q ->
  length (data b) = length (data q) ->
  (forall i, (i < length (data q))%nat ->
             nth i (data b) false = true <-> (1 # 2 < nth i (data q) 0)%Q) ->
  forward call logits labels (Some (NumMask q)) self
  = forward call logits labels (Some (BoolMask b)) self.
Proof.
  intros Hs Hlen Hb.
  rewrite !forward_kernel_args. f_equal. f_equal.
  unfold kernel_args. cbn [mask_shape]. rewrite mask_bits_num. cbn [mask_bits].
  rewrite Hs.
  replace (data b) with (map gt_half (data q)); [reflexivity|].
  apply (nth_ext _ _ false false).
  - rewrite length_map. symmetry. exact Hlen.
  - intros i Hi. rewrite length_map in Hi.
    change false with (gt_half 0) at 1. rewrite map_nth.
    specialize (Hb i Hi).
    destruct (gt_half (nth i (data q) 0)) eqn:G.
    + symmetry. apply Hb. now apply gt_half_spec.
    + destruct (nth i (data b) false) eqn:N; [|reflexivity].
      apply proj1 in Hb. specialize (Hb eq_refl).
      apply gt_half_spec in Hb. congruence.
Qed.

(** C8.  A call hands the module back as it received it: criterion and
    rank are those of before, and any later call behaves as if the first
    had not happened. *)
Theorem forward_leaves_module_unchanged
        (logits : tensor Q) (labels : tensor Z) (loss_mask : option mask_tensor) :
  let self' := left_behind (forward call logits labels loss_mask) self in
  self' = self
  /\ _criterion self' = _criterion self
  /\ _logits_dim self' = _logits_dim self
  /\ forall logits2 labels2 mask2,
       forward call logits2 labels2 mask2 self'
       = forward call logits2 labels2 mask2 self.
Proof.
  assert (E : left_behind (forward call logits labels loss_mask) self = self).
  { unfold left_behind. now rewrite forward_kernel_args. }
  cbv zeta. rewrite E. repeat split.
Qed.

(** C9.  Under an all-false mask the labels' contents do not reach the
    result: two label tensors of one shape give the same outcome. *)
Theorem fallback_ignores_labels
        (logits : tensor Q) (labels1 labels2 : tensor Z) (m : mask_tensor) :
  (forall b, In b (mask_bits m) -> b = false) ->
  shape labels1 = shape labels2 ->
  forward call logits labels1 (Some m) self
  = forward call logits labels2 (Some m) self.
Proof.
  intros Hf Hs. apply all_false_count in Hf.
  rewrite !forward_kernel_args. f_equal. f_equal.
  unfold kernel_args.
  destruct (flatten logits 0 (-2)) as [lf|e]; [|reflexivity].
  rewrite !flatten_all. cbn [rbind].
  destruct (index_bool lf _) as [lf'|e]; [|reflexivity].
  cbn [rbind].
  unfold index_bool, numel. cbn [shape data].
  rewrite Hs.
  destruct (len _ =? _)%nat; [|reflexivity].
  unfold nonzero. rewrite (nonzero_from_all_false 0 _ Hf).
  reflexivity.
Qed.

End Structural.

(** ** The kernel on rank-2 input *)

Lemma chunks_row_length {A : Type} (n c : nat) (l : list A) :
  length l = (n * c)%nat ->
  forall r, In r (chunks n c l) -> length r = c.
Proof.
  revert l; induction n as [|n IH]; intros l Hl r Hr; [contradiction|].
  simpl in Hr. destruct Hr as [<-|Hr].
  - rewrite length_firstn. simpl in Hl. lia.
  - apply (IH (skipn c l)); [|exact Hr].
    rewrite length_skipn. simpl in Hl. lia.
Qed.

Lemma class_vector_row (c : nat) (block : list Q) :
  length block = c -> class_vector c 1 block 0 = block.
Proof.
  intros H. unfold class_vector.
  apply (nth_ext _ _ 0%Q 0%Q).
  - now rewrite length_map, length_seq.
  - intros i Hi. rewrite length_map, length_seq in Hi.
    rewrite (nth_indep _ 0%Q (nth (0 * 1 + 0) block 0%Q))
      by (rewrite length_map, length_seq; exact Hi).
    rewrite (map_nth (fun k => nth (k * 1 + 0) block 0%Q)).
    rewrite seq_nth by exact Hi.
    f_equal. lia.
Qed.

Lemma sequence_map {A B : Type} (f : A -> option B) (g : A -> B) (l : list A) :
  (forall a, In a l -> f a = Some (g a)) ->
  sequence (map f l) = Some (map g l).
Proof.
  induction l as [|a l IH]; intros H; [reflexivity|].
  simpl. rewrite (H a (or_introl eq_refl)).
  rewrite IH; [reflexivity|].
  intros a' Ha'. apply H. now right.
Qed.

Lemma sequence_some_length {A : Type} (l : list (option A)) (r : list A) :
  sequence l = Some r -> length r = length l.
Proof.
  revert r; induction l as [|[a|] l IH]; intros r H; simpl in H.
  - injection H as <-. reflexivity.
  - destruct (sequence l) as [r'|]; [|discriminate].
    injection H as <-. simpl. now rewrite (IH r').
  - discriminate.
Qed.

Lemma combine_map_r {A B : Type} (f : A -> B) (l : list A) :
  combine l (map f l) = map (fun a => (a, f a)) l.
Proof.
  induction l as [|a l IH]; simpl; [reflexivity|now rewrite IH].
Qed.

(** With one position per batch entry, the losses are those of the rows
    paired with their targets. *)
Lemma all_losses_rank2 (w : option (list Q)) (c : nat)
      (input : list Q) (target : list Z) :
  all_losses w (length target) c 1 input target
  = sequence (map (fun rt => point_loss w c (class_vector c 1 (fst rt) 0) (snd rt))
                  (combine (chunks (length target) c input) target)).
Proof.
  unfold all_losses. f_equal.
  rewrite Nat.mul_1_r.
  revert input; induction target as [|t target IH]; intros input; [reflexivity|].
  cbn [length chunks combine map concat firstn skipn].
  rewrite IH.
  unfold block_losses at 1. cbn [fst snd seq combine map app].
  reflexivity.
Qed.

Lemma point_loss_valid (w : option (list Q)) (c : nat) (xs : list Q) (t : Z) :
  valid_label c t -> exists p, point_loss w c xs t = Some p.
Proof.
  intros [->|[H0 Hc]]; unfold point_loss.
  - rewrite Z.eqb_refl. eauto.
  - destruct (t =? ignore_index)%Z; [eauto|].
    assert (E : ((0 <=? t) && (t <? Z.of_nat c))%Z = true).
    { apply andb_true_intro; split; [apply Z.leb_le|apply Z.ltb_lt]; lia. }
    rewrite E. eauto.
Qed.

Lemma point_loss_index (w : option (list Q)) (c : nat) (xs : list Q) (k : nat) :
  (k < c)%nat ->
  point_loss w c xs (Z.of_nat k)
  = Some (class_weight w k, (Q2R (class_weight w k) * nll xs k)%R).
Proof.
  intros Hk. unfold point_loss, ignore_index.
  assert (E0 : (Z.of_nat k =? -100)%Z = false) by (apply Z.eqb_neq; lia).
  assert (E : ((0 <=? Z.of_nat k) && (Z.of_nat k <? Z.of_nat c))%Z = true).
  { apply andb_true_intro; split; [apply Z.leb_le|apply Z.ltb_lt]; lia. }
  rewrite E0, E, Nat2Z.id. reflexivity.
Qed.

Lemma sequence_all_some {A : Type} (l : list (option A)) :
  (forall o, In o l -> exists a, o = Some a) ->
  exists r, sequence l = Some r.
Proof.
  induction l as [|o l IH]; intros H; [now exists []|].
  destruct (H o (or_introl eq_refl)) as [a ->].
  destruct IH as [r Hr]; [intros o' Ho'; apply H; now right|].
  exists (a :: r). simpl. now rewrite Hr.
Qed.

(** ** Arg-max *)

Lemma argmax_from_bound (l : list Q) (best : Q) (besti i : nat) :
  (besti < i)%nat -> (argmax_from best besti i l < i + length l)%nat.
Proof.
  revert best besti i; induction l as [|x l IH]; intros best besti i H; simpl.
  - lia.
  - destruct (Qlt_le_dec best x).
    + specialize (IH x i (S i)). lia.
    + specialize (IH best besti (S i)). lia.
Qed.

Lemma argmax_row_bound (l : list Q) :
  l <> [] -> (argmax_row l < length l)%nat.
Proof.
  destruct l as [|x l]; [congruence|intros _].
  simpl. pose proof (argmax_from_bound l x 0 1). lia.
Qed.

(** ** Logarithms *)

Lemma sum_exp_ge (xs : list Q) (k : nat) :
  (k < length xs)%nat -> (exp (Q2R (nth k xs 0%Q)) <= sum_exp xs)%R.
Proof.
  assert (P : forall l, (0 <= sum_exp l)%R).
  { induction l as [|x l IH]; simpl; [lra|].
    pose proof (exp_pos (Q2R x)). lra. }
  revert k; induction xs as [|x xs IH]; intros k Hk; [simpl in Hk; lia|].
  destruct k as [|k]; simpl.
  - pose proof (P xs). lra.
  - simpl in Hk. assert (Hk' : (k < length xs)%nat) by lia.
    specialize (IH k Hk'). pose proof (exp_pos (Q2R x)). lra.
Qed.

Lemma nll_nonneg (xs : list Q) (k : nat) :
  (k < length xs)%nat -> (0 <= nll xs k)%R.
Proof.
  intros Hk. unfold nll.
  pose proof (sum_exp_ge xs k Hk) as H.
  pose proof (exp_pos (Q2R (nth k xs 0%Q))) as Hp.
  destruct H as [H|H].
  - apply (ln_increasing _ _ Hp) in H. rewrite ln_exp in H. lra.
  - rewrite <- H, ln_exp. lra.
Qed.

Lemma nll_single (x : Q) : nll [x] 0 = 0%R.
Proof.
  unfold nll. simpl. rewrite Rplus_0_r, ln_exp. lra.
Qed.

Lemma returned_forward {Crit Loss : Type}
      (call : Crit -> tensor Q -> tensor Z -> result Loss)
      (logits : tensor Q) (labels : tensor Z) (loss_mask : option mask_tensor)
      (self : CrossEntropyLoss Crit) :
  returned (forward call logits labels loss_mask) self
  = rbind (kernel_args logits labels loss_mask)
          (fun xt => call (_criterion self) (fst xt) (snd xt)).
Proof. unfold returned. now rewrite forward_kernel_args. Qed.

Lemma shape_eqb_eq (a b : list nat) : shape_eqb a b = true <-> a = b.
Proof.
  revert b; induction a as [|x a IH]; intros [|y b]; simpl; split; intros H;
    try reflexivity; try discriminate.
  - apply andb_prop in H as [H1 H2].
    apply Nat.eqb_eq in H1. apply IH in H2. congruence.
  - injection H as -> ->. rewrite Nat.eqb_refl. now apply IH.
Qed.

Lemma removelast_shift {A : Type} (d a : A) (l : list A) :
  removelast (a :: l) = l -> last (a :: l) d = a.
Proof.
  revert a; induction l as [|b l IH]; intros a H; [reflexivity|].
  change (removelast (a :: b :: l)) with (a :: removelast (b :: l)) in H.
  injection H as -> H.
  change (last (b :: b :: l) d) with (last (b :: l) d).
  now apply IH.
Qed.

Lemma prod_list_removelast (sh : list nat) :
  sh <> [] -> prod_list sh = (prod_list (removelast sh) * last sh 0)%nat.
Proof.
  induction sh as [|a sh IH]; [congruence|intros _].
  destruct sh as [|b sh].
  - unfold prod_list; simpl; lia.
  - change (prod_list (a :: b :: sh)) with (a * prod_list (b :: sh))%nat.
    change (removelast (a :: b :: sh)) with (a :: removelast (b :: sh)).
    change (last (a :: b :: sh) 0%nat) with (last (b :: sh) 0%nat).
    change (prod_list (a :: removelast (b :: sh)))
      with (a * prod_list (removelast (b :: sh)))%nat.
    rewrite IH by discriminate. lia.
Qed.

Lemma flatten_rows_inv (t lf : tensor Q) :
  flatten t 0 (-2) = Ok lf -> (2 <= ndim t)%nat.
Proof.
  unfold flatten, ndim. destruct (shape t) as [|a [|b sh]]; simpl.
  - discriminate.
  - discriminate.
  - intros _. lia.
Qed.

(** The arg-max of logits with at least one class. *)
Lemma argmax_last_ok (logits : tensor Q) :
  (1 <= ndim logits)%nat -> (0 < n_classes logits)%nat ->
  argmax_last logits
  = Ok (mkTensor (removelast (shape logits))
                 (map (fun r => Z.of_nat (argmax_row r)) (rows logits))).
Proof.
  unfold argmax_last, rows, n_rows, n_classes, ndim. intros Hr Hc.
  destruct (shape logits) as [|a sh] eqn:E; [simpl in Hr; lia|].
  assert (K : (last (a :: sh) 0 =? 0)%nat = false) by (apply Nat.eqb_neq; lia).
  rewrite K. reflexivity.
Qed.

Lemma argmax_last_shape (logits : tensor Q) (p : tensor Z) :
  (1 <= ndim logits)%nat ->
  argmax_last logits = Ok p -> shape p = removelast (shape logits).
Proof.
  unfold argmax_last, ndim. intros Hr.
  destruct (shape logits) as [|a sh] eqn:E; [simpl in Hr; lia|].
  destruct (last (a :: sh) 0 =? 0)%nat; [discriminate|].
  intros H. injection H as <-. reflexivity.
Qed.

(** What reaches the criterion is either the logits themselves with their
    arg-max, or a rank-2 tensor with the logits' class axis. *)
Lemma kernel_args_cases (logits : tensor Q) (labels : tensor Z)
      (loss_mask : option mask_tensor) (x : tensor Q) (t : tensor Z) :
  kernel_args logits labels loss_mask = Ok (x, t) ->
  (2 <= ndim logits)%nat
  /\ ((x = logits /\ argmax_last logits = Ok t)
      \/ (exists k, shape x = [k; n_classes logits])).
Proof.
  unfold kernel_args. intros H.
  destruct (flatten logits 0 (-2)) as [lf|e] eqn:F; [|discriminate].
  pose proof (flatten_rows_inv _ _ F) as Hr. split; [exact Hr|].
  rewrite (flatten_rows _ Hr) in F. injection F as <-.
  rewrite flatten_all in H. cbn [rbind] in H.
  destruct loss_mask as [m|].
  - rewrite flatten_all in H. cbn [rbind] in H.
    unfold index_bool in H. cbn [shape data] in H.
    destruct (len _ =? n_rows logits)%nat; [|discriminate].
    cbn [rbind] in H.
    destruct (len _ =? numel labels)%nat; [|discriminate].
    cbn [rbind snd fst] in H.
    destruct (len _ =? 0)%nat.
    + destruct (argmax_last logits) as [p|e]; [|discriminate].
      injection H as <- <-. now left.
    + injection H as <- <-. right. eexists. reflexivity.
  - cbn [rbind snd fst] in H.
    destruct (len _ =? 0)%nat.
    + destruct (argmax_last logits) as [p|e]; [|discriminate].
      injection H as <- <-. now left.
    + injection H as <- <-. right. eexists. reflexivity.
Qed.

(** A weight vector of the wrong length is rejected by the kernel whatever
    [forward] hands it. *)
Lemma wrong_weight_rejected (logits : tensor Q) (labels : tensor Z)
      (loss_mask : option mask_tensor) (x : tensor Q) (t : tensor Z)
      (w : list Q) (r : reduction) :
  kernel_args logits labels loss_mask = Ok (x, t) ->
  length w <> n_classes logits ->
  CrossEntropyLoss_call (mkCriterion (Some w) r) x t = Raise KernelError.
Proof.
  intros H Hw. apply kernel_args_cases in H as [Hr [[-> Ht]|[k Hx]]].
  - apply argmax_last_shape in Ht; [|lia].
    unfold CrossEntropyLoss_call, n_classes, ndim in *.
    destruct (shape logits) as [|n [|c ds]] eqn:E; try (simpl in Hr; lia).
    rewrite Ht.
    change (removelast (n :: c :: ds)) with (n :: removelast (c :: ds)).
    destruct (shape_eqb (n :: removelast (c :: ds)) (n :: ds)) eqn:S;
      [|reflexivity].
    apply shape_eqb_eq in S. injection S as S.
    apply (removelast_shift 0%nat) in S.
    change (last (n :: c :: ds) 0%nat) with (last (c :: ds) 0%nat) in Hw.
    rewrite S in Hw. cbn [negb weight].
    assert (K : (length w =? c)%nat = false) by (now apply Nat.eqb_neq).
    rewrite K. reflexivity.
  - unfold CrossEntropyLoss_call. rewrite Hx.
    assert (K : (length w =? n_classes logits)%nat = false)
      by (now apply Nat.eqb_neq).
    cbn [weight]. rewrite K.
    destruct (negb (shape_eqb (shape t) [k])); reflexivity.
Qed.

(** C7 (amended).  A non-empty weight list of any length is accepted by the
    constructor; when its length is not the number of classes, every call
    of [forward] that gets as far as the criterion ends in a kernel error. *)
Theorem weight_length_checked_by_kernel
        (logits_ndim : Z) (w : list Q) (r : reduction) :
  w <> [] ->
  exists self,
    __init__ logits_ndim (Some w) r = Ok self
    /\ weight (_criterion self) = Some w
    /\ forall logits labels loss_mask xt,
         kernel_args logits labels loss_mask = Ok xt ->
         length w <> n_classes logits ->
         returned (torch_forward logits labels loss_mask) self
         = Raise KernelError.
Proof.
  intros Hw. destruct w as [|q w]; [congruence|].
  eexists. split; [reflexivity|]. split; [reflexivity|].
  intros logits labels loss_mask [x t] Hk Hl.
  unfold torch_forward. rewrite returned_forward, Hk. cbn [rbind fst snd _criterion].
  exact (wrong_weight_rejected _ _ _ _ _ _ _ Hk Hl).
Qed.

(** C7: an empty weight list is not converted and the criterion's
    constructor refuses it. *)
Lemma empty_weight_list_raises_at_construction :
  __init__ 2 (Some []) Mean = Raise TypeError.
Proof. reflexivity. Qed.

(** ** The fallback call on rank-2 logits *)

Lemma weight_fits_check (crit : Torch.CrossEntropyLoss) (c : nat) :
  weight_fits crit c ->
  negb (match weight crit with
        | None => true
        | Some l => (length l =? c)%nat
        end) = false.
Proof.
  unfold weight_fits. destruct (weight crit) as [l|]; [|reflexivity].
  intros ->. now rewrite Nat.eqb_refl.
Qed.

Lemma rows_rank2 (logits : tensor Q) (n c : nat) :
  shape logits = [n; c] ->
  n_rows logits = n /\ n_classes logits = c /\ numel logits = (n * c)%nat.
Proof.
  intros E. unfold n_rows, n_classes, numel. rewrite E.
  cbn [removelast last]. unfold prod_list; simpl. lia.
Qed.

Lemma fallback_call (crit : Torch.CrossEntropyLoss) (logits : tensor Q)
      (n c : nat) :
  shape logits = [n; c] -> wf logits -> (0 < c)%nat -> weight_fits crit c ->
  CrossEntropyLoss_call crit logits
    (mkTensor (removelast (shape logits))
              (map (fun r => Z.of_nat (argmax_row r)) (rows logits)))
  = Ok (reduce_losses (reduce crit) [n] (argmax_losses (weight crit) logits)).
Proof.
  intros E W Hc Hw.
  destruct (rows_rank2 logits n c E) as (Hn & Hcl & Hnum).
  unfold CrossEntropyLoss_call. rewrite E. cbn [shape data removelast].
  assert (Se : shape_eqb [n] [n] = true) by (now apply shape_eqb_eq).
  rewrite Se. cbn [negb].
  rewrite (weight_fits_check crit c Hw).
  set (target := map (fun r => Z.of_nat (argmax_row r)) (rows logits)).
  assert (Lt : length target = n).
  { subst target. rewrite length_map. unfold rows.
    now rewrite chunks_length. }
  change (prod_list []) with 1%nat.
  rewrite <- Lt at 1. rewrite all_losses_rank2.
  assert (R : chunks (length target) c (data logits) = rows logits).
  { unfold rows. now rewrite Lt, Hn, Hcl. }
  rewrite R. subst target. rewrite combine_map_r, map_map. cbn [fst snd].
  rewrite (sequence_map _
             (fun r => (class_weight (weight crit) (argmax_row r),
                        (Q2R (class_weight (weight crit) (argmax_row r))
                         * nll r (argmax_row r))%R))).
  - reflexivity.
  - intros r Hr.
    assert (Lr : length r = c).
    { unfold rows in Hr. rewrite Hn, Hcl in Hr.
      apply (chunks_row_length n c (data logits)); [|exact Hr].
      unfold wf in W. now rewrite W. }
    rewrite (class_vector_row c r Lr).
    apply point_loss_index. rewrite <- Lr. apply argmax_row_bound.
    destruct r; [simpl in Lr; lia|discriminate].
Qed.

(** ** Unweighted sums *)

Lemma Qsum_ones_pos (l : list (Q * R)) :
  l <> [] -> (forall p, In p l -> fst p = 1%Q) -> (0 < Qsum (map fst l))%Q.
Proof.
  assert (P : forall l' : list (Q * R), (forall p, In p l' -> fst p = 1%Q) ->
                         (0 <= Qsum (map fst l'))%Q).
  { induction l' as [|p l' IH]; intros H; simpl; [apply Qle_refl|].
    rewrite (H p (or_introl eq_refl)).
    assert (0 <= Qsum (map fst l'))%Q by (apply IH; intros; apply H; now right).
    change 0%Q with (0 + 0)%Q. apply Qplus_le_compat; [discriminate|assumption]. }
  destruct l as [|p l]; [congruence|intros _ H]. simpl.
  rewrite (H p (or_introl eq_refl)).
  assert (0 <= Qsum (map fst l))%Q by (apply P; intros; apply H; now right).
  apply Qlt_le_trans with (1 + 0)%Q; [reflexivity|].
  apply Qplus_le_compat; [apply Qle_refl|assumption].
Qed.

Lemma Q2R_Qsum_ones (l : list (Q * R)) :
  (forall p, In p l -> fst p = 1%Q) -> Q2R (Qsum (map fst l)) = INR (length l).
Proof.
  induction l as [|p l IH]; intros H.
  - unfold Qsum. cbn [map fold_right length INR]. apply RMicromega.Q2R_0.
  - change (Qsum (map fst (p :: l))) with (fst p + Qsum (map fst l))%Q.
    rewrite Q2R_plus, (H p (or_introl eq_refl)), IH
      by (intros q Hq; apply H; now right).
    change (length (p :: l)) with (S (length l)).
    rewrite S_INR, RMicromega.Q2R_1. lra.
Qed.

Lemma Rsum_nonneg (l : list R) :
  (forall x, In x l -> (0 <= x)%R) -> (0 <= Rsum l)%R.
Proof.
  induction l as [|x l IH]; intros H; simpl; [lra|].
  assert (0 <= x)%R by (apply H; now left).
  assert (0 <= Rsum l)%R by (apply IH; intros; apply H; now right).
  lra.
Qed.

Lemma Rsum_zero (l : list R) :
  (forall x, In x l -> x = 0%R) -> Rsum l = 0%R.
Proof.
  induction l as [|x l IH]; intros H; simpl; [reflexivity|].
  rewrite (H x (or_introl eq_refl)), IH; [lra|].
  intros; apply H; now right.
Qed.

Lemma unweighted_reduction (r : reduction) (sh : list nat) (l : list (Q * R)) :
  r <> NoReduction -> l <> [] ->
  (forall p, In p l -> fst p = 1%Q) ->
  (forall p, In p l -> (0 <= snd p)%R) ->
  exists v, reduce_losses r sh l = scalar (Fin v) /\ (0 <= v)%R
            /\ ((forall p, In p l -> snd p = 0%R) -> v = 0%R).
Proof.
  intros Hr Hl H1 Hp.
  assert (S : (0 <= Rsum (map snd l))%R).
  { apply Rsum_nonneg. intros x Hx. apply in_map_iff in Hx as [p [<- Hp']].
    now apply Hp. }
  assert (Z0 : (forall p, In p l -> snd p = 0%R) -> Rsum (map snd l) = 0%R).
  { intros H0. apply Rsum_zero. intros x Hx.
    apply in_map_iff in Hx as [p [<- Hp']]. now apply H0. }
  destruct r; [| |congruence]; unfold reduce_losses.
  - pose proof (Qsum_ones_pos l Hl H1) as D.
    destruct (Qeq_bool (Qsum (map fst l)) 0) eqn:B.
    + apply Qeq_bool_eq in B. rewrite B in D. discriminate.
    + apply Qlt_Rlt in D. rewrite RMicromega.Q2R_0 in D.
      eexists. split; [reflexivity|]. split.
      * unfold Rdiv. apply Rmult_le_pos; [exact S|].
        left. now apply Rinv_0_lt_compat.
      * intros H0. rewrite (Z0 H0). unfold Rdiv. apply Rmult_0_l.
  - eexists. split; [reflexivity|]. split; [exact S|exact Z0].
Qed.

Lemma rank2_shape {A : Type} (t : tensor A) :
  ndim t = 2%nat -> exists n c, shape t = [n; c].
Proof.
  unfold ndim. destruct (shape t) as [|n [|c [|d sh]]]; try discriminate.
  intros _. now exists n, c.
Qed.

Lemma rows_have_classes (logits : tensor Q) (n c : nat) :
  shape logits = [n; c] -> wf logits ->
  forall r, In r (rows logits) -> length r = c.
Proof.
  intros E W r Hr.
  destruct (rows_rank2 logits n c E) as (Hn & Hc & Hnum).
  unfold rows in Hr. rewrite Hn, Hc in Hr.
  apply (chunks_row_length n c (data logits)); [|exact Hr].
  unfold wf in W. now rewrite W.
Qed.

Lemma argmax_losses_unweighted (logits : tensor Q) (n c : nat) :
  shape logits = [n; c] -> wf logits -> (0 < c)%nat ->
  (forall p, In p (argmax_losses None logits) -> fst p = 1%Q)
  /\ (forall p, In p (argmax_losses None logits) -> (0 <= snd p)%R)
  /\ (c = 1%nat -> forall p, In p (argmax_losses None logits) -> snd p = 0%R).
Proof.
  intros E W Hc. unfold argmax_losses. repeat split.
  - intros p Hp. apply in_map_iff in Hp as [r [<- _]]. reflexivity.
  - intros p Hp. apply in_map_iff in Hp as [r [<- Hr]]. cbn [snd class_weight].
    rewrite RMicromega.Q2R_1, Rmult_1_l.
    apply nll_nonneg. apply argmax_row_bound.
    pose proof (rows_have_classes logits n c E W r Hr) as L.
    destruct r; [simpl in L; lia|discriminate].
  - intros -> p Hp. apply in_map_iff in Hp as [r [<- Hr]]. cbn [snd class_weight].
    pose proof (rows_have_classes logits n 1 E W r Hr) as L.
    destruct r as [|x [|y r]]; try discriminate.
    cbn [argmax_row argmax_from]. rewrite nll_single. lra.
Qed.

Lemma fallback_kernel_args (logits : tensor Q) (labels : tensor Z)
      (loss_mask : option mask_tensor) :
  (2 <= ndim logits)%nat -> (0 < n_classes logits)%nat ->
  empty_selection logits labels loss_mask ->
  kernel_args logits labels loss_mask
  = Ok (logits,
        mkTensor (removelast (shape logits))
                 (map (fun r => Z.of_nat (argmax_row r)) (rows logits))).
Proof.
  intros Hr Hc He. destruct loss_mask as [m|]; cbn [empty_selection] in He.
  - destruct He as (Hm & Hl & Hf).
    rewrite (kernel_args_mask logits labels m Hr Hm Hl).
    rewrite (all_false_count _ Hf). cbn [Nat.eqb].
    rewrite argmax_last_ok by (assumption || lia). reflexivity.
  - rewrite (kernel_args_no_mask logits labels Hr), He. cbn [Nat.eqb].
    rewrite argmax_last_ok by (assumption || lia). reflexivity.
Qed.

(** ** The value of the fallback *)

Lemma argmax_from_max (l pre : list Q) (best : Q) (besti : nat) :
  (besti < length pre)%nat ->
  nth besti pre 0%Q = best ->
  (forall x, In x pre -> (x <= best)%Q) ->
  forall x, In x (pre ++ l) ->
    (x <= nth (argmax_from best besti (length pre) l) (pre ++ l) 0%Q)%Q.
Proof.
  revert pre best besti.
  induction l as [|y l IH]; intros pre best besti Hi Hb Hmax x Hx.
  - cbn [argmax_from]. rewrite app_nil_r in *. rewrite Hb. now apply Hmax.
  - cbn [argmax_from].
    replace (pre ++ y :: l) with ((pre ++ [y]) ++ l) in *
      by (now rewrite <- app_assoc).
    replace (S (length pre)) with (length (pre ++ [y]))
      by (rewrite length_app; simpl; lia).
    destruct (Qlt_le_dec best y) as [Hlt|Hle].
    + apply IH; [rewrite length_app; simpl; lia| | |exact Hx].
      * rewrite app_nth2 by lia. now rewrite Nat.sub_diag.
      * intros z Hz. apply in_app_iff in Hz as [Hz|[<-|[]]].
        -- apply Qle_trans with best; [now apply Hmax|now apply Qlt_le_weak].
        -- apply Qle_refl.
    + apply IH; [rewrite length_app; simpl; lia| | |exact Hx].
      * now rewrite app_nth1 by lia.
      * intros z Hz. apply in_app_iff in Hz as [Hz|[<-|[]]].
        -- now apply Hmax.
        -- exact Hle.
Qed.

Lemma row_max_is_max (r : list Q) (x : Q) :
  In x r -> (x <= row_max r)%Q.
Proof.
  destruct r as [|y l]; [contradiction|]. intros Hx.
  unfold row_max. cbn [argmax_row].
  apply (argmax_from_max l [y] y 0); [simpl; lia|reflexivity| |exact Hx].
  intros z [<-|[]]. apply Qle_refl.
Qed.

Lemma argmax_loss_sum_eq (logits : tensor Q) :
  Rsum (map snd (argmax_losses None logits)) = argmax_loss_sum logits.
Proof.
  unfold argmax_losses, argmax_loss_sum. rewrite map_map. f_equal.
  apply map_ext. intros r. cbn [snd class_weight].
  rewrite RMicromega.Q2R_1, Rmult_1_l. reflexivity.
Qed.

Lemma argmax_losses_length (w : option (list Q)) (logits : tensor Q) :
  length (argmax_losses w logits) = n_rows logits.
Proof. unfold argmax_losses, rows. now rewrite length_map, chunks_length. Qed.

(** The unweighted reduction of the arg-max losses. *)
Lemma argmax_reduction (logits : tensor Q) (n c : nat) (sh : list nat) :
  shape logits = [n; c] -> wf logits -> (0 < c)%nat -> (0 < n)%nat ->
  reduce_losses Sum sh (argmax_losses None logits)
  = scalar (Fin (argmax_loss_sum logits))
  /\ reduce_losses Mean sh (argmax_losses None logits)
     = scalar (Fin (argmax_loss_sum logits / INR (n_rows logits)))
  /\ (0 <= argmax_loss_sum logits)%R
  /\ (c = 1%nat -> argmax_loss_sum logits = 0%R).
Proof.
  intros E W Hc Hn.
  destruct (argmax_losses_unweighted logits n c E W Hc) as (F1 & F2 & F3).
  destruct (rows_rank2 logits n c E) as (En & _ & _).
  rewrite <- argmax_loss_sum_eq. repeat split.
  - unfold reduce_losses.
    assert (Hq : Q2R (Qsum (map fst (argmax_losses None logits)))
                 = INR (n_rows logits)).
    { rewrite (Q2R_Qsum_ones _ F1). now rewrite argmax_losses_length. }
    destruct (Qeq_bool (Qsum (map fst (argmax_losses None logits))) 0) eqn:B.
    + apply Qeq_bool_eq in B. apply Qeq_eqR in B.
      rewrite Hq, RMicromega.Q2R_0, En in B.
      apply lt_INR in Hn. simpl in Hn. lra.
    + now rewrite Hq.
  - apply Rsum_nonneg. intros y Hy. apply in_map_iff in Hy as [p [<- Hp]].
    now apply F2.
  - intros C1. apply Rsum_zero. intros y Hy.
    apply in_map_iff in Hy as [p [<- Hp]]. now apply F3.
Qed.

(** C1 (amended).  Logits of rank at least 2 with at least one element,
    matching labels, an all-false mask: the outcome of [forward] is the
    outcome of the criterion on the logits and their own arg-max.  For
    well-formed rank-2 logits and no class weights, [forward] returns
    under [sum] the sum over the rows of [ln (sum_c exp x_c) - max_c x_c]
    and under [mean] that sum divided by the number of rows; the value is
    never negative, and it is zero when there is a single class. *)
Theorem all_false_mask_returns_argmax_loss
        (logits : tensor Q) (labels : tensor Z) (m : mask_tensor) :
  (2 <= ndim logits)%nat ->
  (0 < numel logits)%nat ->
  prod_list (mask_shape m) = n_rows logits ->
  prod_list (mask_shape m) = numel labels ->
  (forall b, In b (mask_bits m) -> b = false) ->
  exists p,
    argmax_last logits = Ok p
    /\ (forall (Crit Loss : Type)
               (call : Crit -> tensor Q -> tensor Z -> result Loss)
               (self : CrossEntropyLoss Crit),
           forward call logits labels (Some m) self
           = (call (_criterion self) logits p, self))
    /\ (forall self : CrossEntropyLoss Torch.CrossEntropyLoss,
           ndim logits = 2%nat -> wf logits ->
           weight (_criterion self) = None ->
           (reduce (_criterion self) = Sum ->
            returned (torch_forward logits labels (Some m)) self
            = Ok (scalar (Fin (argmax_loss_sum logits))))
           /\ (reduce (_criterion self) = Mean ->
               returned (torch_forward logits labels (Some m)) self
               = Ok (scalar (Fin (argmax_loss_sum logits
                                  / INR (n_rows logits)))))
           /\ (0 <= argmax_loss_sum logits)%R
           /\ (0 <= argmax_loss_sum logits / INR (n_rows logits))%R
           /\ (n_classes logits = 1%nat -> argmax_loss_sum logits = 0%R))
    /\ (forall r x, In r (rows logits) -> In x r -> (x <= row_max r)%Q).
Proof.
  intros Hr Hnum Hm Hl Hf.
  assert (Hsh : shape logits <> []).
  { unfold ndim in Hr. destruct (shape logits); [simpl in Hr; lia|discriminate]. }
  pose proof (prod_list_removelast (shape logits) Hsh) as Hp.
  fold (numel logits) (n_rows logits) (n_classes logits) in Hp.
  assert (Hc : (0 < n_classes logits)%nat) by nia.
  assert (Hn : (0 < n_rows logits)%nat) by nia.
  pose proof (fallback_kernel_args logits labels (Some m) Hr Hc
                (conj Hm (conj Hl Hf))) as K.
  eexists. split; [apply argmax_last_ok; [lia|exact Hc]|]. split; [|split].
  - intros Crit Loss call self. rewrite forward_kernel_args, K. reflexivity.
  - intros self H2 W Hw.
    destruct (rank2_shape logits H2) as (n & c & E).
    destruct (rows_rank2 logits n c E) as (En & Ec & _).
    destruct (argmax_reduction logits n c [n] E W) as (RS & RM & S0 & S1);
      [lia|lia|].
    assert (Call : returned (torch_forward logits labels (Some m)) self
                   = Ok (reduce_losses (reduce (_criterion self)) [n]
                           (argmax_losses None logits))).
    { unfold torch_forward. rewrite returned_forward, K. cbn [rbind fst snd].
      rewrite (fallback_call (_criterion self) logits n c E W)
        by (try lia; unfold weight_fits; now rewrite Hw).
      now rewrite Hw. }
    split; [|split; [|split; [|split]]].
    + intros Hred. now rewrite Call, Hred, RS.
    + intros Hred. now rewrite Call, Hred, RM.
    + exact S0.
    + unfold Rdiv. apply Rmult_le_pos; [exact S0|].
      left. apply Rinv_0_lt_compat. apply lt_INR in Hn. simpl in Hn. exact Hn.
    + intros C1. apply S1. lia.
  - intros r x _ Hx. now apply row_max_is_max.
Qed.

(** C2 (amended).  When the selection is empty [forward] takes the fallback
    branch: the criterion is called on the original logits and their
    arg-max, not on the filtered tensors.  On rank-2 logits, with
    class weights absent or one per class, that call raises nothing. *)
Theorem empty_selection_takes_fallback
        (logits : tensor Q) (labels : tensor Z) (loss_mask : option mask_tensor) :
  (2 <= ndim logits)%nat ->
  (0 < n_classes logits)%nat ->
  empty_selection logits labels loss_mask ->
  exists p,
    argmax_last logits = Ok p
    /\ (forall (Crit Loss : Type)
               (call : Crit -> tensor Q -> tensor Z -> result Loss)
               (self : CrossEntropyLoss Crit),
           forward call logits labels loss_mask self
           = (call (_criterion self) logits p, self))
    /\ (forall self : CrossEntropyLoss Torch.CrossEntropyLoss,
           ndim logits = 2%nat -> wf logits ->
           weight_fits (_criterion self) (n_classes logits) ->
           exists v,
             returned (torch_forward logits labels loss_mask) self = Ok v).
Proof.
  intros Hr Hc He.
  pose proof (fallback_kernel_args logits labels loss_mask Hr Hc He) as K.
  eexists. split; [apply argmax_last_ok; [lia|exact Hc]|]. split.
  - intros Crit Loss call self. rewrite forward_kernel_args, K. reflexivity.
  - intros self H2 W Hw.
    destruct (rank2_shape logits H2) as (n & c & E).
    destruct (rows_rank2 logits n c E) as (En & Ec & _).
    unfold torch_forward. rewrite returned_forward, K. cbn [rbind fst snd].
    rewrite (fallback_call (_criterion self) logits n c E W)
      by (try lia; now rewrite <- Ec).
    eexists. reflexivity.
Qed.

Lemma gather_labels (labels : tensor Z) (bits : list bool) :
  wf labels -> length bits = numel labels ->
  concat (map (fun i => nth i (chunks (numel labels) 1 (data labels)) [])
              (nonzero bits))
  = selected (data labels) bits.
Proof.
  intros W Hb. unfold wf in W. rewrite <- W, chunks_one.
  rewrite gather_nonzero by (rewrite length_map; lia).
  rewrite selected_map. apply concat_singletons.
Qed.

Lemma kernel_args_selected (logits : tensor Q) (labels : tensor Z)
      (m : mask_tensor) (x : tensor Q) (t : tensor Z) :
  kernel_args logits labels (Some m) = Ok (x, t) ->
  (0 < count_true (mask_bits m))%nat ->
  shape x = [count_true (mask_bits m); n_classes logits]
  /\ shape t = [count_true (mask_bits m)].
Proof.
  intros H Hk.
  assert (Hr : (2 <= ndim logits)%nat).
  { unfold kernel_args in H.
    destruct (flatten logits 0 (-2)) as [lf|e] eqn:F; [|discriminate].
    exact (flatten_rows_inv _ _ F). }
  assert (Hml : prod_list (mask_shape m) = n_rows logits
                /\ prod_list (mask_shape m) = numel labels).
  { unfold kernel_args in H.
    rewrite (flatten_rows _ Hr), !flatten_all in H. cbn [rbind] in H.
    unfold index_bool, len, numel in H. cbn [shape data hd] in H.
    destruct (prod_list (mask_shape m) =? n_rows logits)%nat eqn:E1;
      [|discriminate].
    cbn [rbind] in H.
    destruct (prod_list (mask_shape m) =? prod_list (shape labels))%nat eqn:E2;
      [|discriminate].
    apply Nat.eqb_eq in E1, E2. now split. }
  destruct Hml as [Hm Hl].
  rewrite (kernel_args_mask logits labels m Hr Hm Hl) in H.
  assert (K : (count_true (mask_bits m) =? 0)%nat = false)
    by (apply Nat.eqb_neq; lia).
  rewrite K in H. injection H as <- <-. now split.
Qed.

(** C10.  Reduction [none] and a mask with [k > 0] true entries: whatever
    [forward] returns has shape [k], and on well-formed input (mask and
    labels of the logits' leading shape, selected labels valid, weights
    absent or one per class) it does return, with [k] elements. *)
Theorem unreduced_loss_has_one_entry_per_selected_position
        (self : CrossEntropyLoss Torch.CrossEntropyLoss)
        (logits : tensor Q) (labels : tensor Z) (m : mask_tensor) :
  reduce (_criterion self) = NoReduction ->
  (0 < count_true (mask_bits m))%nat ->
  (forall v, returned (torch_forward logits labels (Some m)) self = Ok v ->
             shape v = [count_true (mask_bits m)]
             /\ numel v = count_true (mask_bits m))
  /\ ((2 <= ndim logits)%nat ->
      prod_list (mask_shape m) = n_rows logits ->
      prod_list (mask_shape m) = numel labels ->
      length (mask_bits m) = prod_list (mask_shape m) ->
      wf labels ->
      weight_fits (_criterion self) (n_classes logits) ->
      (forall t, In t (selected (data labels) (mask_bits m)) ->
                 valid_label (n_classes logits) t) ->
      exists v, returned (torch_forward logits labels (Some m)) self = Ok v
                /\ shape v = [count_true (mask_bits m)]
                /\ length (data v) = count_true (mask_bits m)).
Proof.
  intros Hred Hk. set (k := count_true (mask_bits m)) in *. split.
  - intros v Hv. unfold torch_forward in Hv. rewrite returned_forward in Hv.
    destruct (kernel_args logits labels (Some m)) as [[x t]|e] eqn:K;
      [|discriminate].
    destruct (kernel_args_selected _ _ _ _ _ K Hk) as [Sx St].
    cbn [rbind fst snd] in Hv. unfold CrossEntropyLoss_call in Hv.
    fold k in Sx, St. rewrite Sx in Hv.
    destruct (negb (shape_eqb (shape t) [k])); [discriminate|].
    destruct (negb _); [discriminate|].
    destruct (all_losses _ _ _ _ _ _) as [l|]; [|discriminate].
    injection Hv as <-. rewrite Hred. unfold numel. cbn [reduce_losses shape].
    split; [reflexivity|apply prod_list_single].
  - intros Hr Hm Hl Wm Wl Hw Hval.
    unfold torch_forward. rewrite returned_forward.
    rewrite (kernel_args_mask logits labels m Hr Hm Hl).
    assert (K : (k =? 0)%nat = false) by (apply Nat.eqb_neq; lia).
    fold k. rewrite K. cbn [rbind fst snd].
    rewrite (gather_labels labels (mask_bits m) Wl) by lia.
    set (x := concat _).
    set (t := selected (data labels) (mask_bits m)) in *.
    assert (Lt : length t = k).
    { subst t k. apply selected_length. unfold wf in Wl. lia. }
    clearbody k t x.
    unfold CrossEntropyLoss_call. cbn [shape data].
    assert (Se : shape_eqb [k] [k] = true) by (now apply shape_eqb_eq).
    rewrite Se, (weight_fits_check _ _ Hw). cbn [negb].
    change (prod_list []) with 1%nat.
    subst k. rewrite all_losses_rank2.
    destruct (sequence_all_some
                (map (fun rt => point_loss (weight (_criterion self))
                                  (n_classes logits)
                                  (class_vector (n_classes logits) 1 (fst rt) 0)
                                  (snd rt))
                     (combine (chunks (length t) (n_classes logits) x) t)))
      as [l Hl'].
    { intros o Ho. apply in_map_iff in Ho as [[r lab] [<- Hrt]].
      apply in_combine_r in Hrt. cbn [fst snd].
      apply point_loss_valid. now apply Hval. }
    rewrite Hl'. eexists. split; [reflexivity|].
    rewrite Hred. cbn [reduce_losses shape data]. split; [reflexivity|].
    rewrite length_map, (sequence_some_length _ _ Hl'), length_map,
      length_combine, chunks_length. lia.
Qed.

Lemma scalar_eq (x y : R) : x = y -> Ok (scalar (Fin x)) = Ok (scalar (Fin y)).
Proof. now intros ->. Qed.

Lemma vector1_eq (x y : R) :
  x = y -> Ok (mkTensor [1%nat] [Fin x]) = Ok (mkTensor [1%nat] [Fin y]).
Proof. now intros ->. Qed.

Lemma Q2R_2 : Q2R 2 = 2%R.
Proof. unfold Q2R. cbn [Qnum Qden]. rewrite Rinv_1. lra. Qed.

Lemma ln_two_terms_comm (x y : R) :
  ln (exp x + (exp y + 0)) = ln (exp y + (exp x + 0)).
Proof. f_equal. lra. Qed.

Lemma ln_two_terms_pos (x : R) : (0 < ln (exp x + (1 + 0)))%R.
Proof.
  pose proof (ln_increasing 1 (exp x + (1 + 0))) as H.
  rewrite ln_1 in H. apply H; [lra|].
  pose proof (exp_pos x). lra.
Qed.

(** C1: two equal scores, one false mask entry, reduction [mean]: the
    fallback returns [ln 2], not zero. *)
Lemma argmax_loss_of_equal_scores_is_ln2 :
  returned (torch_forward (mkTensor [1; 2]%nat [0; 0]%Q) (mkTensor [1%nat] [0%Z])
              (Some (BoolMask (mkTensor [1%nat] [false]))))
           (plain_module Mean)
  = Ok (scalar (Fin (ln 2)))
  /\ ln 2 <> 0%R.
Proof.
  split.
  - run_forward. apply scalar_eq.
    rewrite RMicromega.Q2R_0, RMicromega.Q2R_1, exp_0.
    replace (1 + (1 + 0))%R with 2%R by lra. lra.
  - pose proof ln_lt_2. lra.
Qed.

(** C2: no mask, no labels, logits with no rows: the selection is empty and
    the criterion is called on the empty logits. *)
Lemma fallback_called_on_empty_logits :
  let logits := mkTensor [0; 2]%nat (@nil Q) in
  let labels := mkTensor [0%nat] (@nil Z) in
  empty_selection logits labels None
  /\ returned (forward recording_call logits labels None) (mkModule tt 2)
     = Ok (logits, mkTensor [0%nat] [])
  /\ numel logits = 0%nat
  /\ returned (torch_forward logits labels None) (plain_module Mean)
     = Ok (scalar NonFinite).
Proof.
  cbv zeta. repeat split.
Qed.

(** C4.  A module of rank 3, an empty batch of shape [0, 2, 3] with labels
    of shape [0, 2] and no mask: [forward] takes the fallback, which calls
    the criterion on the logits as they came, with arg-max targets of shape
    [0, 2], and the criterion rejects them; the call on the tensors
    flattened to [0, 3] and [0] returns.  With one batch entry the
    criterion receives the flattened logits and labels. *)
Theorem rank3_empty_batch_differs_from_flattened :
  let self := mkModule (mkCriterion None Mean) 3 in
  let logits := mkTensor [0; 2; 3]%nat (@nil Q) in
  let labels := mkTensor [0; 2]%nat (@nil Z) in
  __init__ 3 None Mean = Ok self
  /\ returned (forward recording_call logits labels None) (mkModule tt 3)
     = Ok (logits, mkTensor [0; 2]%nat [])
  /\ returned (torch_forward logits labels None) self = Raise KernelError
  /\ returned (torch_forward (mkTensor [0 * 2; 3]%nat [])
                 (mkTensor [(0 * 2)%nat] []) None) self
     = Ok (scalar NonFinite)
  /\ returned (forward recording_call
                 (mkTensor [1; 2; 3]%nat [1; 2; 3; 4; 5; 6]%Q)
                 (mkTensor [1; 2]%nat [0; 1]%Z) None) (mkModule tt 3)
     = Ok (mkTensor [2; 3]%nat [1; 2; 3; 4; 5; 6]%Q,
           mkTensor [2%nat] [0; 1]%Z).
Proof.
  cbv zeta. repeat split.
Qed.

(** C6 (amended).  With weights [1, 2], an example of true class 1 costs
    twice the unweighted loss of the mirrored example of true class 0 under
    reductions [sum] and [none]; under [mean] the weight cancels and both
    cost the same. *)
Theorem class_weight_doubles_sum_and_unreduced_loss (a b : Q) :
  (forall r, __init__ 2 (Some [1; 2]%Q) r = Ok (weighted_module r))
  /\ (forall r, __init__ 2 None r = Ok (plain_module r))
  /\ returned (torch_forward (example_logits a b) (example_label 1) None)
              (weighted_module Sum)
     = Ok (scalar (Fin (2 * nll [b; a] 0)))
  /\ returned (torch_forward (example_logits b a) (example_label 0) None)
              (plain_module Sum)
     = Ok (scalar (Fin (nll [b; a] 0)))
  /\ returned (torch_forward (example_logits a b) (example_label 1) None)
              (weighted_module NoReduction)
     = Ok (mkTensor [1%nat] [Fin (2 * nll [b; a] 0)])
  /\ returned (torch_forward (example_logits b a) (example_label 0) None)
              (plain_module NoReduction)
     = Ok (mkTensor [1%nat] [Fin (nll [b; a] 0)])
  /\ returned (torch_forward (example_logits a b) (example_label 1) None)
              (weighted_module Mean)
     = Ok (scalar (Fin (nll [b; a] 0)))
  /\ returned (torch_forward (example_logits b a) (example_label 0) None)
              (plain_module Mean)
     = Ok (scalar (Fin (nll [b; a] 0))).
Proof.
  split; [reflexivity|]. split; [reflexivity|].
  unfold nll, sum_exp. cbn [fold_right nth].
  repeat split; run_forward;
    (apply scalar_eq || apply vector1_eq);
    rewrite ?Q2R_2, ?RMicromega.Q2R_1, ?(ln_two_terms_comm (Q2R a) (Q2R b));
    lra.
Qed.

(** C6: under the default reduction [mean] the class-1 example does not
    cost twice the unweighted loss of the class-0 example. *)
Lemma class_weight_cancels_under_mean :
  __init__ 2 (Some [1; 2]%Q) Mean = Ok (weighted_module Mean)
  /\ __init__ 2 None Mean = Ok (plain_module Mean)
  /\ ~ exists u : R,
         returned (torch_forward (example_logits 0 1) (example_label 0) None)
                  (plain_module Mean)
         = Ok (scalar (Fin u))
         /\ returned (torch_forward (example_logits 1 0) (example_label 1) None)
                     (weighted_module Mean)
            = Ok (scalar (Fin (2 * u))).
Proof.
  split; [reflexivity|]. split; [reflexivity|].
  intros [u [H1 H2]].
  run_forward_in H1. run_forward_in H2.
  injection H1 as H1. injection H2 as H2.
  rewrite ?Q2R_2, ?RMicromega.Q2R_1, ?RMicromega.Q2R_0, ?exp_0 in H1, H2.
  replace (1 + (exp 1 + 0))%R with (exp 1 + (1 + 0))%R in H1 by lra.
  pose proof (ln_two_terms_pos 1) as P.
  lra.
Qed.

(** ** The theorems at concrete inputs *)

Lemma all_false_mask_returns_argmax_loss_witness :
  returned (torch_forward p2_logits p2_labels (Some (BoolMask no_position)))
           (plain_module Mean)
  = Ok (scalar (Fin (argmax_loss_sum p2_logits / INR (n_rows p2_logits))))
  /\ (0 <= argmax_loss_sum p2_logits / INR (n_rows p2_logits))%R.
Proof.
  destruct (all_false_mask_returns_argmax_loss
              p2_logits p2_labels (BoolMask no_position))
    as (p & _ & _ & H & _).
  - vm_compute. lia.
  - vm_compute. lia.
  - reflexivity.
  - reflexivity.
  - intros b Hb. simpl in Hb. intuition congruence.
  - destruct (H (plain_module Mean)) as (_ & E & _ & Hv & _).
    + reflexivity.
    + reflexivity.
    + reflexivity.
    + split; [apply E; reflexivity|exact Hv].
Defined.

Lemma empty_selection_takes_fallback_witness :
  exists v,
    returned (torch_forward p2_logits p2_labels (Some (BoolMask no_position)))
             (mkModule (mkCriterion (Some [1; 2; 3]%Q) Sum) 2)
    = Ok v.
Proof.
  destruct (empty_selection_takes_fallback
              p2_logits p2_labels (Some (BoolMask no_position)))
    as (p & _ & _ & H).
  - vm_compute. lia.
  - vm_compute. lia.
  - split; [reflexivity|]. split; [reflexivity|].
    intros b Hb. simpl in Hb. intuition congruence.
  - apply (H (mkModule (mkCriterion (Some [1; 2; 3]%Q) Sum) 2)).
    + reflexivity.
    + reflexivity.
    + reflexivity.
Defined.

Lemma masked_forward_is_forward_on_selection_witness :
  forward CrossEntropyLoss_call p2_logits p2_labels (Some (BoolMask p2_mask))
          (plain_module Mean)
  = forward CrossEntropyLoss_call (select_logits p2_logits (data p2_mask))
            (select_labels p2_labels (data p2_mask)) None (plain_module Mean).
Proof.
  apply masked_forward_is_forward_on_selection.
  - vm_compute. lia.
  - reflexivity.
  - reflexivity.
  - reflexivity.
  - reflexivity.
  - vm_compute. lia.
Defined.

Lemma numeric_mask_is_thresholded_witness :
  forward CrossEntropyLoss_call p2_logits p2_labels (Some (NumMask p4_mask))
          (plain_module Mean)
  = forward CrossEntropyLoss_call p2_logits p2_labels (Some (BoolMask p4_bool))
            (plain_module Mean).
Proof.
  apply numeric_mask_is_thresholded.
  - reflexivity.
  - reflexivity.
  - intros i Hi. simpl in Hi.
    destruct i as [|[|[|i]]]; [| | |lia]; simpl; split; intros H;
      try reflexivity; try discriminate.
Defined.

Lemma weight_length_checked_by_kernel_witness :
  exists self,
    __init__ 2 (Some [1; 2; 3]%Q) Mean = Ok self
    /\ returned (torch_forward (example_logits 1 0) (example_label 1) None) self
       = Raise KernelError.
Proof.
  destruct (weight_length_checked_by_kernel 2 [1; 2; 3]%Q Mean)
    as (self & E & _ & H).
  - discriminate.
  - exists self. split; [exact E|].
    apply (H (example_logits 1 0) (example_label 1) None
             (example_logits 1 0, example_label 1)).
    + reflexivity.
    + vm_compute. lia.
Defined.

Lemma fallback_ignores_labels_witness :
  forward CrossEntropyLoss_call p2_logits p2_labels
          (Some (BoolMask no_position)) (plain_module Mean)
  = forward CrossEntropyLoss_call p2_logits (mkTensor [3%nat] [2; 2; 0]%Z)
            (Some (BoolMask no_position)) (plain_module Mean).
Proof.
  apply fallback_ignores_labels.
  - intros b Hb. simpl in Hb. intuition congruence.
  - reflexivity.
Defined.

Lemma unreduced_loss_has_one_entry_per_selected_position_witness :
  exists v,
    returned (torch_forward p2_logits p2_labels (Some (BoolMask p2_mask)))
             (plain_module NoReduction)
    = Ok v
    /\ shape v = [2%nat]
    /\ length (data v) = 2%nat.
Proof.
  destruct (unreduced_loss_has_one_entry_per_selected_position
              (plain_module NoReduction) p2_logits p2_labels (BoolMask p2_mask))
    as [_ H].
  - reflexivity.
  - vm_compute. lia.
  - apply H.
    + vm_compute. lia.
    + reflexivity.
    + reflexivity.
    + reflexivity.
    + reflexivity.
    + exact I.
    + intros t Ht. right. vm_compute in Ht.
      change (n_classes p2_logits) with 3%nat.
      destruct Ht as [<-|[<-|[]]]; lia.
Defined.

(** * Further properties of [forward] *)

Lemma flatten_rows_low_rank {A : Type} (t : tensor A) :
  (ndim t < 2)%nat -> flatten t 0 (-2) = Raise IndexError.
Proof.
  unfold flatten, ndim. intros H.
  destruct (shape t) as [|a [|b sh]]; [reflexivity|reflexivity|].
  simpl in H. lia.
Qed.

Section Forward_edges.

Context {Crit Loss : Type}.
Variable call : Crit -> tensor Q -> tensor Z -> result Loss.
Variable self : CrossEntropyLoss Crit.

(** X1.  Logits of rank 0 or 1 cannot be flattened up to their last-but-one
    axis: [forward] raises an index error whatever the labels, the mask and
    the criterion are. *)
Theorem forward_low_rank_logits_raise
        (logits : tensor Q) (labels : tensor Z) (loss_mask : option mask_tensor) :
  (ndim logits < 2)%nat ->
  returned (forward call logits labels loss_mask) self = Raise IndexError.
Proof.
  intros H. rewrite returned_forward. unfold kernel_args.
  now rewrite (flatten_rows_low_rank logits H).
Qed.

(** X2.  A mask whose number of entries is not the number of logits rows,
    or not the number of labels, makes [forward] raise an index error before
    the criterion is reached. *)
Theorem forward_mask_size_mismatch_raises
        (logits : tensor Q) (labels : tensor Z) (m : mask_tensor) :
  (2 <= ndim logits)%nat ->
  prod_list (mask_shape m) <> n_rows logits
  \/ prod_list (mask_shape m) <> numel labels ->
  returned (forward call logits labels (Some m)) self = Raise IndexError.
Proof.
  intros Hr H. rewrite returned_forward. unfold kernel_args.
  rewrite (flatten_rows logits Hr), !flatten_all. cbn [rbind].
  unfold index_bool, len, numel. cbn [shape data hd].
  destruct (prod_list (mask_shape m) =? n_rows logits)%nat eqn:E1;
    [|reflexivity].
  cbn [rbind].
  destruct (prod_list (mask_shape m) =? prod_list (shape labels))%nat eqn:E2;
    [|reflexivity].
  apply Nat.eqb_eq in E1, E2. unfold numel in H. destruct H; contradiction.
Qed.

(** X3.  Labels are consumed flat: two label tensors with the same number
    of entries and the same entries in row-major order give the same
    outcome, whatever their shapes. *)
Theorem forward_ignores_labels_shape
        (logits : tensor Q) (labels labels' : tensor Z)
        (loss_mask : option mask_tensor) :
  numel labels = numel labels' ->
  data labels = data labels' ->
  forward call logits labels loss_mask self
  = forward call logits labels' loss_mask self.
Proof.
  intros Hn Hd. rewrite !forward_kernel_args. f_equal. f_equal.
  unfold kernel_args. now rewrite !flatten_all, Hn, Hd.
Qed.

(** X4.  With at least one selected position, only the rows of the logits
    count: two logits tensors of rank at least 2 with the same entries, the
    same number of rows and the same number of classes give the same
    outcome. *)
Theorem forward_ignores_leading_shape
        (logits logits' : tensor Q) (labels : tensor Z)
        (loss_mask : option mask_tensor) :
  (2 <= ndim logits)%nat -> (2 <= ndim logits')%nat ->
  n_rows logits = n_rows logits' ->
  n_classes logits = n_classes logits' ->
  data logits = data logits' ->
  match loss_mask with
  | None => numel labels <> 0%nat
  | Some m => count_true (mask_bits m) <> 0%nat
  end ->
  forward call logits labels loss_mask self
  = forward call logits' labels loss_mask self.
Proof.
  intros Hr Hr' Hn Hc Hd Hsel.
  rewrite !forward_kernel_args. f_equal. f_equal.
  unfold kernel_args.
  rewrite (flatten_rows logits Hr), (flatten_rows logits' Hr'), Hn, Hc, Hd.
  rewrite flatten_all. cbn [rbind].
  destruct loss_mask as [m|].
  - rewrite flatten_all. cbn [rbind].
    destruct (index_bool _ _) as [lf|e]; [|reflexivity]. cbn [rbind].
    unfold index_bool. cbn [shape data].
    destruct (len _ =? numel labels)%nat; [|reflexivity].
    cbn [rbind snd len shape hd].
    unfold nonzero. rewrite nonzero_from_length.
    apply Nat.eqb_neq in Hsel. now rewrite Hsel.
  - cbn [rbind snd len shape hd].
    apply Nat.eqb_neq in Hsel. now rewrite Hsel.
Qed.

(** X5.  The threshold is strict: a numeric mask none of whose entries
    exceeds one half selects nothing, exactly like the all-false boolean
    mask of its shape. *)
Theorem numeric_mask_at_most_half_selects_nothing
        (logits : tensor Q) (labels : tensor Z) (q : tensor Q) :
  (forall v, In v (data q) -> (v <= 1 # 2)%Q) ->
  count_true (mask_bits (NumMask q)) = 0%nat
  /\ forward call logits labels (Some (NumMask q)) self
     = forward call logits labels
         (Some (BoolMask (mkTensor (shape q) (map (fun _ => false) (data q)))))
         self.
Proof.
  intros H.
  assert (E : mask_bits (NumMask q) = map (fun _ => false) (data q)).
  { rewrite mask_bits_num. apply map_ext_in. intros v Hv.
    destruct (gt_half v) eqn:G; [|reflexivity].
    apply gt_half_spec in G. specialize (H v Hv).
    exfalso. exact (Qlt_not_le _ _ G H). }
  split.
  - rewrite E. apply all_false_count. intros b Hb.
    apply in_map_iff in Hb as [v [<- _]]. reflexivity.
  - rewrite !forward_kernel_args. f_equal. f_equal.
    unfold kernel_args. cbn [mask_shape]. rewrite E. reflexivity.
Qed.

End Forward_edges.

(** ** Selection by the mask *)

Lemma selected_all_true {A : Type} (xs : list A) (bits : list bool) :
  length xs = length bits -> all_selected bits -> selected xs bits = xs.
Proof.
  revert bits. induction xs as [|x xs IH]; intros [|b bits] Hl Ha;
    try discriminate; [reflexivity|].
  unfold selected. cbn [combine filter snd].
  rewrite (Ha b (or_introl eq_refl)). cbn [map fst]. f_equal.
  apply IH; [simpl in Hl; lia|].
  intros b' Hb'. apply Ha. now right.
Qed.

Lemma count_all_true (bits : list bool) :
  all_selected bits -> count_true bits = length bits.
Proof.
  induction bits as [|b bits IH]; intros Ha; [reflexivity|].
  unfold count_true in *. cbn [filter].
  rewrite (Ha b (or_introl eq_refl)). cbn [length]. f_equal.
  apply IH. intros b' Hb'. apply Ha. now right.
Qed.

Lemma firstn_plus {A : Type} (c k : nat) (l : list A) :
  firstn (c + k) l = firstn c l ++ firstn k (skipn c l).
Proof.
  revert l. induction c as [|c IH]; intros l; [reflexivity|].
  destruct l as [|x l]; [now rewrite !firstn_nil|].
  cbn [Nat.add firstn skipn app]. now rewrite IH.
Qed.

Lemma concat_chunks {A : Type} (n c : nat) (l : list A) :
  concat (chunks n c l) = firstn (n * c) l.
Proof.
  revert l. induction n as [|n IH]; intros l; [reflexivity|].
  cbn [chunks concat]. rewrite IH.
  replace (S n * c)%nat with (c + n * c)%nat by lia.
  now rewrite firstn_plus.
Qed.

Lemma concat_rows (logits : tensor Q) :
  shape logits <> [] -> wf logits -> concat (rows logits) = data logits.
Proof.
  intros Hs W. unfold rows. rewrite concat_chunks.
  apply firstn_all2. unfold wf, numel in W. rewrite W.
  rewrite (prod_list_removelast _ Hs). unfold n_rows, n_classes. lia.
Qed.

(** With a mask of the right size over well-formed labels, the criterion
    is called on the selected rows and labels. *)
Lemma kernel_args_mask_selected
      (logits : tensor Q) (labels : tensor Z) (m : mask_tensor) :
  (2 <= ndim logits)%nat ->
  prod_list (mask_shape m) = n_rows logits ->
  prod_list (mask_shape m) = numel labels ->
  length (mask_bits m) = prod_list (mask_shape m) ->
  wf labels ->
  kernel_args logits labels (Some m)
  = if (count_true (mask_bits m) =? 0)%nat
    then rbind (argmax_last logits) (fun p => Ok (logits, p))
    else Ok (select_logits logits (mask_bits m),
             select_labels labels (mask_bits m)).
Proof.
  intros Hr Hm Hl Wm Wl.
  rewrite (kernel_args_mask logits labels m Hr Hm Hl).
  destruct (count_true (mask_bits m) =? 0)%nat; [reflexivity|].
  rewrite (gather_labels labels (mask_bits m) Wl) by lia.
  rewrite (gather_nonzero [] (rows logits) (mask_bits m)).
  2:{ unfold rows. rewrite chunks_length. lia. }
  reflexivity.
Qed.

Section Forward_selection.

Context {Crit Loss : Type}.
Variable call : Crit -> tensor Q -> tensor Z -> result Loss.
Variable self : CrossEntropyLoss Crit.

(** X6.  A mask that selects every position changes nothing: on
    well-formed logits and labels the call with the mask is the call
    without a mask. *)
Theorem all_true_mask_is_no_mask
        (logits : tensor Q) (labels : tensor Z) (m : mask_tensor) :
  (2 <= ndim logits)%nat ->
  wf logits -> wf labels ->
  prod_list (mask_shape m) = n_rows logits ->
  prod_list (mask_shape m) = numel labels ->
  length (mask_bits m) = prod_list (mask_shape m) ->
  all_selected (mask_bits m) ->
  forward call logits labels (Some m) self
  = forward call logits labels None self.
Proof.
  intros Hr Wx Wl Hm Hl Wm Ha.
  rewrite !forward_kernel_args. f_equal. f_equal.
  rewrite (kernel_args_mask_selected logits labels m Hr Hm Hl Wm Wl).
  rewrite (kernel_args_no_mask logits labels Hr).
  rewrite (count_all_true _ Ha), Wm, Hl.
  destruct (numel labels =? 0)%nat; [reflexivity|].
  unfold select_logits, select_labels.
  rewrite (count_all_true _ Ha), Wm.
  rewrite !selected_all_true; try assumption.
  - rewrite concat_rows; [|intros E; unfold ndim in Hr; rewrite E in Hr;
                            simpl in Hr; lia|assumption].
    replace (numel labels) with (n_rows logits) by lia.
    replace (prod_list (mask_shape m)) with (n_rows logits) by lia.
    reflexivity.
  - unfold wf in Wl. lia.
  - unfold rows. rewrite chunks_length. lia.
Qed.

(** X7.  Positions the mask leaves out do not reach the criterion: two
    inputs of the same sizes that agree on the selected rows and labels
    give the same outcome, provided something is selected. *)
Theorem masked_out_positions_do_not_matter
        (logits logits' : tensor Q) (labels labels' : tensor Z)
        (m : mask_tensor) :
  (2 <= ndim logits)%nat -> (2 <= ndim logits')%nat ->
  n_rows logits = n_rows logits' ->
  n_classes logits = n_classes logits' ->
  numel labels = numel labels' ->
  wf labels -> wf labels' ->
  prod_list (mask_shape m) = n_rows logits ->
  prod_list (mask_shape m) = numel labels ->
  length (mask_bits m) = prod_list (mask_shape m) ->
  (0 < count_true (mask_bits m))%nat ->
  selected (rows logits) (mask_bits m) = selected (rows logits') (mask_bits m) ->
  selected (data labels) (mask_bits m) = selected (data labels') (mask_bits m) ->
  forward call logits labels (Some m) self
  = forward call logits' labels' (Some m) self.
Proof.
  intros Hr Hr' Hn Hc Hnl Wl Wl' Hm Hl Wm Hk Sx Sl.
  rewrite !forward_kernel_args. f_equal. f_equal.
  rewrite (kernel_args_mask_selected logits labels m Hr Hm Hl Wm Wl).
  rewrite (kernel_args_mask_selected logits' labels' m Hr') by
    (try assumption; lia).
  assert (K : (count_true (mask_bits m) =? 0)%nat = false)
    by (apply Nat.eqb_neq; lia).
  rewrite K. unfold select_logits, select_labels.
  now rewrite Hc, Sx, Sl.
Qed.

End Forward_selection.

(** ** The criterion behind [forward] *)


Lemma sequence_none {A : Type} (l : list (option A)) :
  In None l -> sequence l = None.
Proof.
  induction l as [|o l IH]; intros H; [contradiction|].
  destruct o as [a|]; [|reflexivity].
  destruct H as [H|H]; [discriminate|].
  cbn [sequence]. now rewrite (IH H).
Qed.

Lemma in_combine_r_exists {A B : Type} (l1 : list A) (l2 : list B) (b : B) :
  length l1 = length l2 -> In b l2 -> exists a, In (a, b) (combine l1 l2).
Proof.
  revert l2. induction l1 as [|a l1 IH]; intros [|b' l2] Hl Hb;
    try discriminate; try contradiction.
  destruct Hb as [->|Hb].
  - exists a. now left.
  - destruct (IH l2) as [a' Ha']; [simpl in Hl; lia|exact Hb|].
    exists a'. now right.
Qed.

Lemma point_loss_invalid (w : option (list Q)) (c : nat) (xs : list Q) (t : Z) :
  ~ valid_label c t -> point_loss w c xs t = None.
Proof.
  intros H. unfold point_loss, valid_label in *.
  destruct (t =? ignore_index)%Z eqn:E1.
  - apply Z.eqb_eq in E1. exfalso. apply H. now left.
  - destruct ((0 <=? t) && (t <? Z.of_nat c))%Z eqn:E2; [|reflexivity].
    apply andb_true_iff in E2 as [E2 E3].
    apply Z.leb_le in E2. apply Z.ltb_lt in E3.
    exfalso. apply H. right. lia.
Qed.




Section Kernel_facts.

Variable self : CrossEntropyLoss Torch.CrossEntropyLoss.


(** X10.  Without a mask, a number of labels that is neither zero nor the
    number of logits rows is rejected by the criterion. *)
Theorem label_count_mismatch_raises
        (logits : tensor Q) (labels : tensor Z) :
  (2 <= ndim logits)%nat ->
  numel labels <> 0%nat ->
  numel labels <> n_rows logits ->
  returned (torch_forward logits labels None) self = Raise KernelError.
Proof.
  intros Hr H0 Hn. unfold torch_forward.
  rewrite returned_forward, (kernel_args_no_mask logits labels Hr).
  apply Nat.eqb_neq in H0. rewrite H0. cbn [rbind fst snd].
  unfold CrossEntropyLoss_call. cbn [shape shape_eqb].
  assert (E : (numel labels =? n_rows logits)%nat = false)
    by (now apply Nat.eqb_neq).
  rewrite E. reflexivity.
Qed.

(** X11.  Without a mask, a label that is neither a class index nor the
    ignored index makes the call fail in the criterion. *)
Theorem out_of_range_label_raises
        (logits : tensor Q) (labels : tensor Z) (t : Z) :
  (2 <= ndim logits)%nat ->
  wf labels ->
  In t (data labels) ->
  ~ valid_label (n_classes logits) t ->
  returned (torch_forward logits labels None) self = Raise KernelError.
Proof.
  intros Hr Wl Ht Hbad. unfold torch_forward.
  rewrite returned_forward, (kernel_args_no_mask logits labels Hr).
  assert (H0 : (numel labels =? 0)%nat = false).
  { apply Nat.eqb_neq. unfold wf in Wl. rewrite <- Wl.
    destruct (data labels); [contradiction|discriminate]. }
  rewrite H0. cbn [rbind fst snd].
  unfold CrossEntropyLoss_call. cbn [shape shape_eqb data].
  destruct (numel labels =? n_rows logits)%nat eqn:E; [|reflexivity].
  cbn [andb negb].
  destruct (negb _); [reflexivity|].
  apply Nat.eqb_eq in E. rewrite <- E.
  unfold wf in Wl. rewrite <- Wl.
  change (prod_list []) with 1%nat. rewrite all_losses_rank2.
  rewrite sequence_none; [reflexivity|].
  destruct (in_combine_r_exists
              (chunks (length (data labels)) (n_classes logits) (data logits))
              (data labels) t) as [r Hrt];
    [now rewrite chunks_length|exact Ht|].
  apply in_map_iff. exists (r, t). split; [|exact Hrt].
  cbn [fst snd]. now apply point_loss_invalid.
Qed.

(** X12.  The fallback hands the criterion the logits as they came: for
    rank-3 logits [B, T, C] with [T <> C] and nothing selected, the
    criterion rejects the arg-max targets of shape [B, T]. *)
Theorem rank3_fallback_is_rejected
        (B T C : nat) (x : list Q) (labels : tensor Z)
        (loss_mask : option mask_tensor) :
  (0 < C)%nat -> T <> C ->
  empty_selection (mkTensor [B; T; C] x) labels loss_mask ->
  returned (torch_forward (mkTensor [B; T; C] x) labels loss_mask) self
  = Raise KernelError.
Proof.
  intros HC HT He. unfold torch_forward.
  rewrite returned_forward.
  rewrite (fallback_kernel_args _ labels loss_mask) by
    (try exact He; unfold ndim, n_classes; simpl; lia).
  cbn [rbind fst snd]. unfold CrossEntropyLoss_call.
  cbn [shape removelast shape_eqb].
  rewrite Nat.eqb_refl. apply Nat.eqb_neq in HT. rewrite HT. reflexivity.
Qed.

End Kernel_facts.




(** ** Ports and construction *)

Lemma batch_and_any_length (k : Z) :
  length (batch_and_any k) = S (Z.to_nat k).
Proof. unfold batch_and_any. cbn [length]. now rewrite repeat_length. Qed.

Lemma batch_and_any_nonpos (k : Z) :
  (k <= 0)%Z -> batch_and_any k = ["B"%string].
Proof.
  intros H. unfold batch_and_any.
  replace (Z.to_nat k) with 0%nat by lia. reflexivity.
Qed.

Section Ports.

Context {Crit : Type}.
Variable self : CrossEntropyLoss Crit.

(** X16.  For a stored rank of at least 2 the logits port declares that
    many axes, and the labels and mask ports declare the same axes as each
    other, one fewer than the logits port. *)
Theorem input_ports_ranks :
  (2 <= _logits_dim self)%Z ->
  port_rank "logits"%string (input_ports self) = Some (Z.to_nat (_logits_dim self))
  /\ port_rank "labels"%string (input_ports self)
     = Some (Z.to_nat (_logits_dim self) - 1)%nat
  /\ port_rank "loss_mask"%string (input_ports self)
     = Some (Z.to_nat (_logits_dim self) - 1)%nat.
Proof.
  intros H. unfold port_rank, input_ports.
  cbn [lookup_port String.eqb Ascii.eqb Bool.eqb axes].
  rewrite !batch_and_any_length.
  repeat split; f_equal; lia.
Qed.

(** X17.  A list repeated a non-positive number of times is empty: for a
    stored rank of 1 or less every input port declares the single axis
    [B], so that the labels port has no fewer axes than the logits port. *)
Theorem input_ports_of_low_rank :
  (_logits_dim self <= 1)%Z ->
  forall name t,
    lookup_port name (input_ports self) = Some t ->
    axes t = Some ["B"%string].
Proof.
  intros H name t. unfold input_ports. cbn [lookup_port].
  repeat (destruct (String.eqb _ name);
          [intros E; injection E as <-; cbn [axes];
           now rewrite batch_and_any_nonpos by lia|]).
  discriminate.
Qed.

(** X18.  Logits of the declared rank make [forward] raise an index error
    when the stored rank is 1 or less, whatever the criterion is. *)
Theorem declared_low_rank_logits_raise
        {Loss : Type} (call : Crit -> tensor Q -> tensor Z -> result Loss)
        (logits : tensor Q) (labels : tensor Z) (loss_mask : option mask_tensor) :
  (_logits_dim self <= 1)%Z ->
  port_rank "logits"%string (input_ports self) = Some (ndim logits) ->
  returned (forward call logits labels loss_mask) self = Raise IndexError.
Proof.
  intros H Hp. rewrite returned_forward. unfold kernel_args.
  rewrite flatten_rows_low_rank; [reflexivity|].
  unfold port_rank, input_ports in Hp.
  cbn [lookup_port String.eqb Ascii.eqb Bool.eqb axes] in Hp.
  rewrite batch_and_any_nonpos in Hp by lia.
  injection Hp as <-. simpl. lia.
Qed.

End Ports.

(** X19.  [__init__] fails exactly on the empty weight list, with a type
    error; otherwise the module holds the weights, the reduction and the
    rank it was given. *)
Theorem init_fails_only_on_empty_weight_list
        (logits_ndim : Z) (w : option (list Q)) (r : reduction) :
  (w = Some [] -> __init__ logits_ndim w r = Raise TypeError)
  /\ (w <> Some [] ->
      __init__ logits_ndim w r = Ok (mkModule (mkCriterion w r) logits_ndim)).
Proof.
  split.
  - intros ->. reflexivity.
  - intros H. destruct w as [[|x l]|]; [congruence|reflexivity|reflexivity].
Qed.

(** ** The further properties at concrete inputs *)

Lemma forward_low_rank_logits_raise_witness :
  returned (forward CrossEntropyLoss_call (mkTensor [3%nat] [1; 2; 3]%Q)
              (mkTensor [] [0%Z]) None) (plain_module Mean)
  = Raise IndexError.
Proof.
  apply forward_low_rank_logits_raise. vm_compute. lia.
Defined.

Lemma forward_mask_size_mismatch_raises_witness :
  returned (forward CrossEntropyLoss_call p2_logits p2_labels
              (Some (BoolMask (mkTensor [2%nat] [true; false]))))
           (plain_module Mean)
  = Raise IndexError.
Proof.
  apply forward_mask_size_mismatch_raises.
  - vm_compute. lia.
  - left. vm_compute. lia.
Defined.

Lemma forward_ignores_labels_shape_witness :
  forward CrossEntropyLoss_call (mkTensor [2; 2; 2]%nat [1; 2; 3; 4; 5; 6; 7; 8]%Q)
          (mkTensor [2; 2]%nat [0; 1; 1; 0]%Z) None (plain_module Mean)
  = forward CrossEntropyLoss_call (mkTensor [2; 2; 2]%nat [1; 2; 3; 4; 5; 6; 7; 8]%Q)
            (mkTensor [4%nat] [0; 1; 1; 0]%Z) None (plain_module Mean).
Proof.
  apply forward_ignores_labels_shape.
  - reflexivity.
  - reflexivity.
Defined.

Lemma forward_ignores_leading_shape_witness :
  forward CrossEntropyLoss_call (mkTensor [2; 2; 2]%nat [1; 2; 3; 4; 5; 6; 7; 8]%Q)
          (mkTensor [2; 2]%nat [0; 1; 1; 0]%Z) None (plain_module Mean)
  = forward CrossEntropyLoss_call (mkTensor [4; 2]%nat [1; 2; 3; 4; 5; 6; 7; 8]%Q)
            (mkTensor [2; 2]%nat [0; 1; 1; 0]%Z) None (plain_module Mean).
Proof.
  apply forward_ignores_leading_shape.
  - vm_compute. lia.
  - vm_compute. lia.
  - reflexivity.
  - reflexivity.
  - reflexivity.
  - vm_compute. lia.
Defined.

Lemma numeric_mask_at_most_half_selects_nothing_witness :
  count_true (mask_bits (NumMask (mkTensor [3%nat] [1 # 2; 0; 2 # 5]%Q))) = 0%nat
  /\ forward CrossEntropyLoss_call p2_logits p2_labels
       (Some (NumMask (mkTensor [3%nat] [1 # 2; 0; 2 # 5]%Q))) (plain_module Mean)
     = forward CrossEntropyLoss_call p2_logits p2_labels
         (Some (BoolMask (mkTensor [3%nat] [false; false; false])))
         (plain_module Mean).
Proof.
  apply (numeric_mask_at_most_half_selects_nothing
           CrossEntropyLoss_call (plain_module Mean) p2_logits p2_labels
           (mkTensor [3%nat] [1 # 2; 0; 2 # 5]%Q)).
  intros v Hv. simpl in Hv.
  destruct Hv as [<-|[<-|[<-|[]]]]; vm_compute; discriminate.
Defined.

Lemma all_true_mask_is_no_mask_witness :
  forward CrossEntropyLoss_call p2_logits p2_labels
          (Some (BoolMask (mkTensor [3%nat] [true; true; true])))
          (plain_module Mean)
  = forward CrossEntropyLoss_call p2_logits p2_labels None (plain_module Mean).
Proof.
  apply all_true_mask_is_no_mask.
  - vm_compute. lia.
  - reflexivity.
  - reflexivity.
  - reflexivity.
  - reflexivity.
  - reflexivity.
  - intros b Hb. simpl in Hb. intuition congruence.
Defined.

Lemma masked_out_positions_do_not_matter_witness :
  forward CrossEntropyLoss_call p2_logits p2_labels (Some (BoolMask p2_mask))
          (plain_module Mean)
  = forward CrossEntropyLoss_call
      (mkTensor [3; 3]%nat [2; 0; 0; 0; 2; 0; 5; 5; 5]%Q)
      (mkTensor [3%nat] [0; 1; 0]%Z) (Some (BoolMask p2_mask))
      (plain_module Mean).
Proof.
  apply masked_out_positions_do_not_matter.
  - vm_compute. lia.
  - vm_compute. lia.
  - reflexivity.
  - reflexivity.
  - reflexivity.
  - reflexivity.
  - reflexivity.
  - reflexivity.
  - reflexivity.
  - reflexivity.
  - vm_compute. lia.
  - reflexivity.
  - reflexivity.
Defined.


Lemma label_count_mismatch_raises_witness :
  returned (torch_forward p2_logits (mkTensor [2%nat] [0; 1]%Z) None)
           (plain_module Mean)
  = Raise KernelError.
Proof.
  apply label_count_mismatch_raises.
  - vm_compute. lia.
  - vm_compute. lia.
  - vm_compute. lia.
Defined.

Lemma out_of_range_label_raises_witness :
  returned (torch_forward p2_logits (mkTensor [3%nat] [0; 7; 2]%Z) None)
           (plain_module Mean)
  = Raise KernelError.
Proof.
  apply (out_of_range_label_raises (plain_module Mean) p2_logits
           (mkTensor [3%nat] [0; 7; 2]%Z) 7%Z).
  - vm_compute. lia.
  - reflexivity.
  - simpl. lia.
  - change (n_classes p2_logits) with 3%nat.
    unfold valid_label, ignore_index. lia.
Defined.

Lemma rank3_fallback_is_rejected_witness :
  returned (torch_forward (mkTensor [1; 2; 3]%nat [1; 2; 3; 4; 5; 6]%Q)
              (mkTensor [1; 2]%nat [0; 1]%Z)
              (Some (BoolMask (mkTensor [1; 2]%nat [false; false]))))
           (plain_module Mean)
  = Raise KernelError.
Proof.
  apply rank3_fallback_is_rejected.
  - lia.
  - lia.
  - split; [reflexivity|]. split; [reflexivity|].
    intros b Hb. simpl in Hb. intuition congruence.
Defined.




Lemma input_ports_ranks_witness :
  port_rank "logits"%string (input_ports (plain_module Mean))
  = Some (Z.to_nat (_logits_dim (plain_module Mean)))
  /\ port_rank "labels"%string (input_ports (plain_module Mean))
     = Some (Z.to_nat (_logits_dim (plain_module Mean)) - 1)%nat
  /\ port_rank "loss_mask"%string (input_ports (plain_module Mean))
     = Some (Z.to_nat (_logits_dim (plain_module Mean)) - 1)%nat.
Proof.
  apply input_ports_ranks. simpl. lia.
Defined.

Lemma input_ports_of_low_rank_witness :
  axes (mkNeuralType (Some (batch_and_any (1 - 2))) LabelsType false)
  = Some ["B"%string].
Proof.
  apply (input_ports_of_low_rank (mkModule tt 1)) with (name := "labels"%string).
  - simpl. lia.
  - reflexivity.
Defined.

Lemma declared_low_rank_logits_raise_witness :
  returned (forward CrossEntropyLoss_call (mkTensor [3%nat] [1; 2; 3]%Q)
              (mkTensor [] [0%Z]) None)
           (mkModule (mkCriterion None Mean) 1)
  = Raise IndexError.
Proof.
  apply declared_low_rank_logits_raise.
  - simpl. lia.
  - reflexivity.
Defined.

Lemma init_fails_only_on_empty_weight_list_witness :
  __init__ 3 (Some [1; 2]%Q) Sum
  = Ok (mkModule (mkCriterion (Some [1; 2]%Q) Sum) 3).
Proof.
  apply (proj2 (init_fails_only_on_empty_weight_list 3 (Some [1; 2]%Q) Sum)).
  discriminate.
Defined.
